(** * Sketchflow: the storyboard controller and its provider adapter

    A shallow embedding of [src/types.ts], [src/services/geminiService.ts],
    the application controller ([App], the React component that owns the
    project state) and the send handler of the chat panel
    ([src/components/ChatBot.tsx]).

    JavaScript numbers that the program uses as integers (byte lengths,
    offsets, scene orders) are [Z]; a [Uint8Array] is a [list Z] of bytes;
    strings are [string], one character per code unit (codes up to 255); an
    optional property
    ([x?: string]) is an [option].  A promise is modelled by the way it
    settles, and a handler by the state it leaves and the trace of its
    requests and state-setter calls.  A handler runs from the state its
    closure captured to its end without another handler in between (the
    loading overlay covers the controls while one runs). *)

From Stdlib Require Import ZArith Lia Bool Ascii String.
From stdpp Require Import base tactics option list strings pretty.

Local Open Scope string_scope.
Local Open Scope list_scope.
Local Open Scope Z_scope.

(** ** JavaScript values the program relies on *)

Module JS.

(** Truthiness of a string-valued property that may be absent:
    [undefined] and the empty string are falsy. *)
Definition truthy (v : option string) : bool :=
  match v with
  | Some (String _ _) => true
  | _ => false
  end.

(** [a || b] where [a] may be absent and [b] is a string. *)
Definition or_else (a : option string) (b : string) : string :=
  match a with
  | Some (String c s) => String c s
  | _ => b
  end.

(** [String.prototype.includes]: does [sub] occur in [s]? *)
Fixpoint includes (s sub : string) : bool :=
  String.prefix sub s ||
  match s with
  | EmptyString => false
  | String _ s' => includes s' sub
  end.

(** White space and line terminators of ECMAScript among the characters of
    code up to 255: TAB, LF, VT, FF, CR, SPACE and NO-BREAK SPACE (U+00A0). *)
Definition is_space (c : ascii) : bool :=
  let n := nat_of_ascii c in
  ((9 <=? n) && (n <=? 13))%nat || (n =? 32)%nat || (n =? 160)%nat.

Fixpoint trimStart (s : string) : string :=
  match s with
  | String c s' => if is_space c then trimStart s' else s
  | EmptyString => EmptyString
  end.

Fixpoint trimEnd (s : string) : string :=
  match s with
  | EmptyString => EmptyString
  | String c s' =>
      match trimEnd s' with
      | EmptyString => if is_space c then EmptyString else String c EmptyString
      | t => String c t
      end
  end.

(** [String.prototype.trim]. *)
Definition trim (s : string) : string := trimEnd (trimStart s).

(** The exceptions the program raises or meets, with their [message]. *)
Inductive Error : Type :=
  | GenericError (message : string)   (* [new Error(message)] and provider errors *)
  | SyntaxError (message : string)    (* [JSON.parse] on malformed text *)
  | TypeError (message : string)      (* property read on [undefined] *)
  | RangeError (message : string).    (* [DataView] write out of bounds *)

Definition message (e : Error) : string :=
  match e with
  | GenericError m | SyntaxError m | TypeError m | RangeError m => m
  end.

(** How a promise settles.  [Pending] is a promise that never settles: the
    code that awaits it never resumes. *)
Inductive Settled (A : Type) : Type :=
  | Fulfilled (a : A)
  | Rejected (e : Error)
  | Pending.
Arguments Fulfilled {A} a.
Arguments Rejected {A} e.
Arguments Pending {A}.

(** [Promise.all([p, q])]: fulfilled when both are; rejected as soon as one
    of them rejects, with the reason of the one that rejects first
    ([first_wins] tells whether [p] does when both reject). *)
Definition promise_all {A B : Type} (first_wins : bool)
    (p : Settled A) (q : Settled B) : Settled (A * B) :=
  match p, q with
  | Fulfilled a, Fulfilled b => Fulfilled (a, b)
  | Rejected e1, Rejected e2 => Rejected (if first_wins then e1 else e2)
  | Rejected e, _ => Rejected e
  | _, Rejected e => Rejected e
  | _, _ => Pending
  end.

(** The double nearest to an integer, ties to the even significand: an
    integer of magnitude up to [2^53] is a double; beyond, the doubles are
    the multiples of [2^e], [e] being the number of bits over 53. *)
Definition to_double (x : Z) : Z :=
  let a := Z.abs x in
  let e := Z.log2 a - 52 in
  if e <=? 0 then x
  else
    let q := a / 2 ^ e in
    let rest := a mod 2 ^ e in
    let half := 2 ^ (e - 1) in
    let q' := if rest <? half then q
              else if half <? rest then q + 1
              else if Z.even q then q else q + 1 in
    Z.sgn x * (q' * 2 ^ e).

(** [a + b] on two integral numbers. *)
Definition number_add (a b : Z) : Z := to_double (a + b).

(** [DataView]/[Uint8Array] over an [ArrayBuffer]: a list of bytes. *)
Definition ArrayBuffer (n : nat) : list Z := replicate n 0.

(** [ToUint32] on an integral number. *)
Definition ToUint32 (v : Z) : Z := v mod 2 ^ 32.
Definition ToUint16 (v : Z) : Z := v mod 2 ^ 16.

(** The [k]-th byte of [v], least significant first. *)
Definition byte_at (v : Z) (k : nat) : Z :=
  Z.land (Z.shiftr v (8 * Z.of_nat k)) 255.

Definition bytes_of (width : nat) (v : Z) (littleEndian : bool) : list Z :=
  let le := (byte_at v) <$> seq 0 width in
  if littleEndian then le else reverse le.

(** Store [bs] at [byteOffset], [byteOffset + 1], ... *)
Fixpoint store (view : list Z) (byteOffset : nat) (bs : list Z) : list Z :=
  match bs with
  | [] => view
  | b :: bs' => store (<[byteOffset := b]> view) (S byteOffset) bs'
  end.

(** [DataView.prototype.setUint32(byteOffset, value, littleEndian)];
    [None] is the [RangeError] of a write that leaves the buffer. *)
Definition setUint32 (view : list Z) (byteOffset : nat) (value : Z)
    (littleEndian : bool) : option (list Z) :=
  if decide (byteOffset + 4 ≤ length view)%nat
  then Some (store view byteOffset (bytes_of 4 (ToUint32 value) littleEndian))
  else None.

Definition setUint16 (view : list Z) (byteOffset : nat) (value : Z)
    (littleEndian : bool) : option (list Z) :=
  if decide (byteOffset + 2 ≤ length view)%nat
  then Some (store view byteOffset (bytes_of 2 (ToUint16 value) littleEndian))
  else None.

(** [charCodeAt] of every character of a binary string. *)
Definition charCodes (s : string) : list Z :=
  (λ c, Z.of_nat (nat_of_ascii c)) <$> list_ascii_of_string s.

(** [String.fromCharCode] of every element of a [Uint8Array], concatenated. *)
Definition fromCharCodes (bytes : list Z) : string :=
  string_of_list_ascii ((λ b, ascii_of_nat (Z.to_nat b)) <$> bytes).

(** [String.prototype.split] with a separator of one character: the pieces
    between the occurrences of [sep]; a string without [sep] is its only
    piece. *)
Fixpoint split (sep : ascii) (s : string) : list string :=
  match s with
  | EmptyString => [EmptyString]
  | String c s' =>
      if Ascii.eqb c sep then EmptyString :: split sep s'
      else
        match split sep s' with
        | piece :: pieces => String c piece :: pieces
        | [] => [String c EmptyString]
        end
  end.

End JS.

(** ** [src/types.ts] *)

Inductive ImageSize : Type := Size1K | Size2K | Size4K.

Record Scene : Type := mkScene {
  id : string;
  order : Z;
  description : string;
  dialogue : string;
  storyboardImageUrl : option string;
  storyboardPrompt : option string;
  videoUrl : option string;
  audioUrl : option string;
  isApproved : bool;
}.


Inductive Role : Type := user | model.

Record ChatMessage : Type := mkChatMessage {
  role : Role;
  text : string;
}.

Record Project : Type := mkProject {
  title : string;
  script : string;
  scenes : list Scene;
}.

(** The element type of [analyzeScript]'s result, as its [responseSchema]
    declares it; a missing or [null] [order] is [None]. *)
Record Segment : Type := mkSegment {
  seg_order : option Z;
  seg_description : string;
  seg_dialogue : string;
}.

(** ** Asynchronous handlers

    A handler runs against the component state [S], which it changes only
    through the state setters [U] of its component, and against the
    provider.  A run returns the new state, the events in the order in
    which they happened, and the way the handler's promise settles. *)

Module Async.

Import JS.

(** A request to the provider, named after the adapter function
    ([api.*]) that sends it. *)
Inductive Request : Type :=
  | analyzeScript_request (script : string)
  | generateStoryboardImage_request (prompt : string) (size : ImageSize)
  | generateSceneVideo_request (prompt : string) (initialImageBase64 : option string)
  | generateDialogueSpeech_request (text : string)
  | sendMessage_request (message : string).

(** The environment of a run.  The first argument of a provider field is the
    number of requests the run has issued before this one; the other
    arguments are those of the adapter function.  [generateContent_text],
    [generateContent_image] and [sendMessage_text] give the part of the
    response the adapter reads; the two [_result] fields give the way the
    adapter's own promise settles.  [first_wins] decides which of two
    rejections a [Promise.all] reports, [randomUUID] is the sequence of
    values [crypto.randomUUID] returns, and [JSON_parse] is the platform's
    [JSON.parse] read at the element type [Segment], [inl e] being the
    exception it throws. *)
Record Provider : Type := mkProvider {
  generateContent_text : nat → string → Settled (option string);
  generateContent_image : nat → string → ImageSize → Settled (option string);
  generateSceneVideo_result : nat → string → option string → Settled string;
  generateDialogueSpeech_result : nat → string → Settled string;
  sendMessage_text : nat → string → Settled (option string);
  first_wins : nat → bool;
  randomUUID : nat → string;
  JSON_parse : string → Error + list Segment;
}.

Inductive Event (U : Type) : Type :=
  | Issued (r : Request)     (* a request leaves for the provider *)
  | Resumed                  (* an [await] returns control to the handler *)
  | Updated (u : U).         (* a state setter is called *)
Arguments Issued {U} r.
Arguments Resumed {U}.
Arguments Updated {U} u.

Record Run (S : Type) : Type := mkRun {
  state : S;
  issued : nat;      (* requests issued so far *)
  drawn : nat;       (* identifiers drawn from [crypto.randomUUID] so far *)
}.
Arguments mkRun {S} state issued drawn.
Arguments state {S} r.
Arguments issued {S} r.
Arguments drawn {S} r.

Definition M (S U A : Type) : Type :=
  Run S → Run S * list (Event U) * Settled A.

Section Monad.
Context {S U : Type}.
Context (apply : U → S → S).

Definition ret {A} (a : A) : M S U A := λ r, (r, [], Fulfilled a).

Definition throw {A} (e : Error) : M S U A := λ r, (r, [], Rejected e).

Definition bind {A B} (m : M S U A) (k : A → M S U B) : M S U B :=
  λ r,
    match m r with
    | (r1, t1, Fulfilled a) =>
        match k a r1 with
        | (r2, t2, out) => (r2, t1 ++ t2, out)
        end
    | (r1, t1, Rejected e) => (r1, t1, Rejected e)
    | (r1, t1, Pending) => (r1, t1, Pending)
    end.

(** [try { body } catch (err) { handler }] *)
Definition try_catch {A} (body : M S U A) (handler : Error → M S U A) : M S U A :=
  λ r,
    match body r with
    | (r1, t1, Rejected e) =>
        match handler e r1 with
        | (r2, t2, out) => (r2, t1 ++ t2, out)
        end
    | other => other
    end.

(** [try { body } finally { fin }]: [fin] runs however [body] completes,
    and not at all when [body] never does. *)
Definition finally {A} (body : M S U A) (fin : M S U unit) : M S U A :=
  λ r,
    match body r with
    | (r1, t1, Pending) => (r1, t1, Pending)
    | (r1, t1, out) =>
        match fin r1 with
        | (r2, t2, Fulfilled _) => (r2, t1 ++ t2, out)
        | (r2, t2, Rejected e) => (r2, t1 ++ t2, Rejected e)
        | (r2, t2, Pending) => (r2, t1 ++ t2, Pending)
        end
    end.

(** The state as the handler's closure sees it. *)
Definition read : M S U S := λ r, (r, [], Fulfilled (state r)).

(** A state setter. *)
Definition update (u : U) : M S U unit :=
  λ r, (mkRun (apply u (state r)) (issued r) (drawn r), [Updated u], Fulfilled tt).

(** A setter given an updater function of the current state
    ([setX(prev => ...)]). *)
Definition update_with (f : S → U) : M S U unit :=
  λ r, update (f (state r)) r.

(** Calling an adapter function: the request is issued and the promise
    comes back at once. *)
Definition start {A} (req : Request) (result : nat → Settled A) : M S U (Settled A) :=
  λ r, (mkRun (state r) (Datatypes.S (issued r)) (drawn r), [Issued req],
        Fulfilled (result (issued r))).

(** [await p] *)
Definition await {A} (p : Settled A) : M S U A :=
  λ r,
    match p with
    | Pending => (r, [], Pending)
    | settled => (r, [Resumed], settled)
    end.

(** [crypto.randomUUID()] *)
Definition draw (P : Provider) : M S U string :=
  λ r, (mkRun (state r) (issued r) (Datatypes.S (drawn r)), [],
        Fulfilled (randomUUID P (drawn r))).
End Monad.

End Async.

Notation "'let*' x ':=' m 'in' k" := (Async.bind m (λ x, k))
  (at level 10, x name, m at level 100, k at level 200).
Notation "m ;; k" := (Async.bind m (λ _, k))
  (at level 100, k at level 200, right associativity).

(** ** [src/services/geminiService.ts] *)

Module geminiService.

Import JS Async.

(** [decode]: the bytes of the binary string that [atob] returns. *)
Definition decode (atob : string → string) (base64 : string) : list Z :=
  charCodes (atob base64).

Definition sampleRate : Z := 24000.
Definition numChannels : Z := 1.
Definition bitsPerSample : Z := 16.

(** [createWavHeader]: thirteen writes into a fresh 44-byte buffer. *)
Definition createWavHeader (pcmDataLength : Z) : option (list Z) :=
  let header := ArrayBuffer 44 in
  view ← setUint32 header 0 0x52494646 false;
  view ← setUint32 view 4 (number_add 36 pcmDataLength) true;
  view ← setUint32 view 8 0x57415645 false;
  view ← setUint32 view 12 0x666d7420 false;
  view ← setUint32 view 16 16 true;
  view ← setUint16 view 20 1 true;
  view ← setUint16 view 22 numChannels true;
  view ← setUint32 view 24 sampleRate true;
  view ← setUint32 view 28 (sampleRate * numChannels * (bitsPerSample / 8)) true;
  view ← setUint16 view 32 (numChannels * (bitsPerSample / 8)) true;
  view ← setUint16 view 34 bitsPerSample true;
  view ← setUint32 view 36 0x64617461 false;
  view ← setUint32 view 40 pcmDataLength true;
  Some view.

(** The bytes of [wavBlob] in [generateDialogueSpeech]:
    [new Blob([wavHeader, pcmBytes])]. *)
Definition wavBlob (pcmBytes : list Z) : option (list Z) :=
  wavHeader ← createWavHeader (Z.of_nat (length pcmBytes));
  Some (wavHeader ++ pcmBytes).

(** [encode]: [btoa] of the binary string of the bytes. *)
Definition encode (btoa : string → string) (bytes : list Z) : string :=
  btoa (fromCharCodes bytes).

(** The bytes of the blob [generateDialogueSpeech] builds from the inline
    audio of the response, or the error it throws when there is none
    ([!base64Audio]). *)
Definition speechBlob (atob : string → string) (base64Audio : option string)
    : Error + list Z :=
  if negb (truthy base64Audio) then inl (GenericError "No audio data returned")
  else
    let pcmBytes := decode atob (or_else base64Audio EmptyString) in
    match wavBlob pcmBytes with
    | Some bytes => inr bytes
    | None => inl (RangeError "Offset is outside the bounds of the DataView")
    end.

Section Adapter.
Context {S U : Type} (P : Provider).

(** [analyzeScript]: one request, then [JSON.parse(response.text || "[]")]. *)
Definition analyzeScript (script : string) : M S U (list Segment) :=
  let* response := start (analyzeScript_request script)
                     (λ n, generateContent_text P n script) in
  let* response_text := await response in
  match JSON_parse P (or_else response_text "[]") with
  | inl e => throw e
  | inr sceneData => ret sceneData
  end.

(** [generateStoryboardImage]: the data URL of the first inline image of
    the response ([None]: the response has no such part). *)
Definition generateStoryboardImage (prompt : string) (size : ImageSize) : M S U string :=
  let* response := start (generateStoryboardImage_request prompt size)
                     (λ n, generateContent_image P n prompt size) in
  let* inlineData := await response in
  match inlineData with
  | Some data => ret ("data:image/png;base64," +:+ data)
  | None => throw (GenericError "No image data returned from Gemini")
  end.

(** [generateSceneVideo] and [generateDialogueSpeech], up to the promise
    they return. *)
Definition generateSceneVideo (prompt : string) (initialImageBase64 : option string)
    : M S U (Settled string) :=
  start (generateSceneVideo_request prompt initialImageBase64)
    (λ n, generateSceneVideo_result P n prompt initialImageBase64).

Definition generateDialogueSpeech (text : string) : M S U (Settled string) :=
  start (generateDialogueSpeech_request text)
    (λ n, generateDialogueSpeech_result P n text).

(** [chatWithGemini]: [messages[messages.length - 1]] is [undefined] on an
    empty array, and reading [.text] of it throws before anything is
    sent. *)
Definition chatWithGemini (messages : list ChatMessage) : M S U string :=
  match last messages with
  | None =>
      throw (TypeError "Cannot read properties of undefined (reading 'text')")
  | Some lastMsg =>
      let* response := start (sendMessage_request (text lastMsg))
                         (λ n, sendMessage_text P n (text lastMsg)) in
      let* response_text := await response in
      ret (or_else response_text "Sorry, I couldn't process that.")
  end.
End Adapter.

End geminiService.

(** ** The application controller ([App]) *)

Module App.

Import JS Async geminiService.

Record State : Type := mkState {
  project : option Project;
  loading : option string;
  error : option string;
  imageSize : ImageSize;
  scriptInput : string;
  hasApiKey : bool;
}.

(** The state setters the handlers call. *)
Inductive Update : Type :=
  | setProject (p : option Project)
  | setLoading (msg : option string)
  | setError (msg : option string)
  | setHasApiKey (b : bool).

Definition apply (u : Update) (st : State) : State :=
  match u with
  | setProject p =>
      mkState p (loading st) (error st) (imageSize st) (scriptInput st) (hasApiKey st)
  | setLoading m =>
      mkState (project st) m (error st) (imageSize st) (scriptInput st) (hasApiKey st)
  | setError m =>
      mkState (project st) (loading st) m (imageSize st) (scriptInput st) (hasApiKey st)
  | setHasApiKey b =>
      mkState (project st) (loading st) (error st) (imageSize st) (scriptInput st) b
  end.

Abbreviation Handler := (M State Update unit).

(** Object spreads [{ ...s, field: value }]. *)
Definition with_storyboardImageUrl (imageUrl : string) (s : Scene) : Scene :=
  mkScene (id s) (order s) (description s) (dialogue s) (Some imageUrl)
    (storyboardPrompt s) (videoUrl s) (audioUrl s) (isApproved s).

Definition with_isApproved (b : bool) (s : Scene) : Scene :=
  mkScene (id s) (order s) (description s) (dialogue s) (storyboardImageUrl s)
    (storyboardPrompt s) (videoUrl s) (audioUrl s) b.

Definition with_storyboardPrompt (newPrompt : string) (s : Scene) : Scene :=
  mkScene (id s) (order s) (description s) (dialogue s) (storyboardImageUrl s)
    (Some newPrompt) (videoUrl s) (audioUrl s) (isApproved s).

Definition with_media (video audio : string) (s : Scene) : Scene :=
  mkScene (id s) (order s) (description s) (dialogue s) (storyboardImageUrl s)
    (storyboardPrompt s) (Some video) (Some audio) (isApproved s).

Definition with_scenes (updatedScenes : list Scene) (p : Project) : Project :=
  mkProject (title p) (script p) updatedScenes.

Section Handlers.
Context (P : Provider).

(** [s.order || idx + 1] *)
Definition order_or_index (s : Segment) (idx : nat) : Z :=
  match seg_order s with
  | Some n => if n =? 0 then Z.of_nat idx + 1 else n
  | None => Z.of_nat idx + 1
  end.

(** [sceneData.map((s, idx) => ({ id: crypto.randomUUID(), ... }))] *)
Fixpoint map_scenes (idx : nat) (sceneData : list Segment) : M State Update (list Scene) :=
  match sceneData with
  | [] => ret []
  | s :: rest =>
      let* uuid := draw P in
      let scene := mkScene uuid (order_or_index s idx) (seg_description s)
                     (seg_dialogue s) None (Some (seg_description s)) None None false in
      let* scenes := map_scenes (Datatypes.S idx) rest in
      ret (scene :: scenes)
  end.

Definition handleScriptSubmit : Handler :=
  let* st := read in
  if negb (truthy (Some (trim (scriptInput st)))) then ret tt else
  update apply (setLoading (Some "Analyzing script and breaking into scenes...")) ;;
  finally
    (try_catch
       (let* sceneData := analyzeScript P (scriptInput st) in
        let* scenes := map_scenes 0 sceneData in
        update apply (setProject (Some (mkProject "My New Animation" (scriptInput st) scenes))))
       (λ err, update apply (setError (Some (or_else (Some (message err)) "Failed to analyze script")))))
    (update apply (setLoading None)).

(** [handleGenerateStoryboard]: the [return] for an unknown scene is inside
    the [try], so the [finally] still runs. *)
Definition handleGenerateStoryboard (sceneId : string) : Handler :=
  let* st := read in
  match project st with
  | None => ret tt
  | Some project =>
      update apply (setLoading (Some "Generating sketch storyboard...")) ;;
      finally
        (try_catch
           match find (λ s, String.eqb (id s) sceneId) (scenes project) with
           | None => ret tt
           | Some scene =>
               let* imageUrl := generateStoryboardImage P
                                  (or_else (storyboardPrompt scene) (description scene))
                                  (imageSize st) in
               let updatedScenes :=
                 (λ s, if String.eqb (id s) sceneId
                       then with_storyboardImageUrl imageUrl s else s)
                   <$> scenes project in
               update apply (setProject (Some (with_scenes updatedScenes project)))
           end
           (λ err, update apply (setError (Some (or_else (Some (message err))
                                                   "Storyboard generation failed")))))
        (update apply (setLoading None))
  end.

(** The [for] loop of [handleGenerateAllStoryboards]; [n] bounds the
    iterations left and [i] is the loop index. *)
Fixpoint generateAll_loop (size : ImageSize) (n i : nat) (updatedScenes : list Scene)
    : Handler :=
  match n with
  | O => ret tt
  | Datatypes.S n' =>
      match updatedScenes !! i with
      | None => ret tt
      | Some scene =>
          if negb (truthy (storyboardImageUrl scene)) then
            update apply (setLoading (Some ("Generating sketch for Scene "
                                            +:+ pretty (order scene) +:+ "..."))) ;;
            let* imageUrl := generateStoryboardImage P
                               (or_else (storyboardPrompt scene) (description scene)) size in
            let updatedScenes' := <[i := with_storyboardImageUrl imageUrl scene]> updatedScenes in
            update_with apply (λ prev, setProject (with_scenes updatedScenes' <$> project prev)) ;;
            generateAll_loop size n' (Datatypes.S i) updatedScenes'
          else generateAll_loop size n' (Datatypes.S i) updatedScenes
      end
  end.

Definition handleGenerateAllStoryboards : Handler :=
  let* st := read in
  match project st with
  | None => ret tt
  | Some project =>
      update apply (setLoading (Some "Generating all storyboards sequentially...")) ;;
      let updatedScenes := scenes project in
      finally
        (try_catch
           (generateAll_loop (imageSize st) (length updatedScenes) 0 updatedScenes)
           (λ err, update apply (setError (Some (or_else (Some (message err)) "Bulk generation failed")))))
        (update apply (setLoading None))
  end.

Definition handleApproveScene (sceneId : string) : Handler :=
  let* st := read in
  match project st with
  | None => ret tt
  | Some project =>
      let updatedScenes :=
        (λ s, if String.eqb (id s) sceneId then with_isApproved (negb (isApproved s)) s else s)
          <$> scenes project in
      update apply (setProject (Some (with_scenes updatedScenes project)))
  end.

Definition handleUpdatePrompt (sceneId newPrompt : string) : Handler :=
  let* st := read in
  match project st with
  | None => ret tt
  | Some project =>
      let updatedScenes :=
        (λ s, if String.eqb (id s) sceneId then with_storyboardPrompt newPrompt s else s)
          <$> scenes project in
      update apply (setProject (Some (with_scenes updatedScenes project)))
  end.

(** [await Promise.all([videoUrlPromise, audioUrlPromise])] *)
Definition await_all {A B} (p : Settled A) (q : Settled B) : M State Update (A * B) :=
  λ r, await (promise_all (first_wins P (issued r)) p q) r.

Definition handleGenerateFinalVideo (sceneId : string) : Handler :=
  let* st := read in
  match project st with
  | None => ret tt
  | Some project =>
      match find (λ s, String.eqb (id s) sceneId) (scenes project) with
      | None => ret tt
      | Some scene =>
          if negb (truthy (storyboardImageUrl scene)) then ret tt else
          update apply (setLoading (Some ("Animating scene " +:+ pretty (order scene)
                                          +:+ "... This will take about a minute."))) ;;
          finally
            (try_catch
               (let* videoUrlPromise :=
                  generateSceneVideo P (or_else (storyboardPrompt scene) (description scene))
                    (storyboardImageUrl scene) in
                let* audioUrlPromise := generateDialogueSpeech P (dialogue scene) in
                let* urls := await_all videoUrlPromise audioUrlPromise in
                let updatedScenes :=
                  (λ s, if String.eqb (id s) sceneId
                        then with_media (fst urls) (snd urls) s else s)
                    <$> scenes project in
                update apply (setProject (Some (with_scenes updatedScenes project))))
               (λ err,
                  if includes (message err) "Requested entity was not found" then
                    update apply (setHasApiKey false) ;;
                    update apply (setError (Some "API Session expired. Please re-select your key."))
                  else
                    update apply (setError (Some (or_else (Some (message err))
                                                    "Animation generation failed")))))
            (update apply (setLoading None))
      end
  end.
End Handlers.

End App.

(** ** The chat panel ([src/components/ChatBot.tsx]) *)

Module ChatBot.

Import JS Async geminiService.

Record State : Type := mkState {
  messages : list ChatMessage;
  input : string;
  isTyping : bool;
}.

Inductive Update : Type :=
  | setMessages (ms : list ChatMessage)
  | setInput (s : string)
  | setIsTyping (b : bool).

Definition apply (u : Update) (st : State) : State :=
  match u with
  | setMessages ms => mkState ms (input st) (isTyping st)
  | setInput s => mkState (messages st) s (isTyping st)
  | setIsTyping b => mkState (messages st) (input st) b
  end.

Section Handlers.
Context (P : Provider).

(** The array literal [[...messages, userMsg]] that [handleSend] passes to
    [chatWithGemini]. *)
Definition history (st : State) : list ChatMessage :=
  messages st ++ [mkChatMessage user (input st)].

Definition handleSend : M State Update unit :=
  let* st := read in
  if negb (truthy (Some (trim (input st)))) then ret tt else
  let userMsg := mkChatMessage user (input st) in
  update_with apply (λ prev, setMessages (messages prev ++ [userMsg])) ;;
  update apply (setInput EmptyString) ;;
  update apply (setIsTyping true) ;;
  finally
    (try_catch
       (let* response := chatWithGemini P (history st) in
        update_with apply (λ prev, setMessages (messages prev ++ [mkChatMessage model response])))
       (λ err, update_with apply (λ prev,
          setMessages (messages prev ++
                       [mkChatMessage model "Error: Could not reach the AI assistant."]))))
    (update apply (setIsTyping false)).
End Handlers.

End ChatBot.

(** ** [generateSceneVideo] against the video interface

    The adapter as [geminiService.ts] writes it: the payload, the request,
    the polling loop, the download.  [fuel] bounds the iterations of the
    [while] loop; [None] is a loop that is still polling when the fuel is
    spent. *)

Module VideoAdapter.

Import JS.

(** What the adapter reads of an operation: [operation.done] and
    [operation.response?.generatedVideos?.[0]?.video?.uri]. *)
Record Operation : Type := mkOperation {
  done : bool;
  uri : option string;
}.

Record Image : Type := mkImage {
  imageBytes : option string;
  mimeType : string;
}.

Record Config : Type := mkConfig {
  numberOfVideos : Z;
  resolution : string;
  aspectRatio : string;
}.

Record Payload : Type := mkPayload {
  model : string;
  prompt : string;
  config : Config;
  image : option Image;
}.

(** The interface the adapter runs against.  The first argument of
    [getVideosOperation] is the number of polls before this one.
    [fetch_blob] is [fetch], [res.blob()] and [URL.createObjectURL] in one:
    the object URL of what the address returns. *)
Record Interface : Type := mkInterface {
  PENCIL_SKETCH_MODIFIER : string;
  API_KEY : string;
  generateVideos : Payload → Settled Operation;
  getVideosOperation : nat → Operation → Settled Operation;
  fetch_blob : string → Settled string;
}.

Inductive Call : Type :=
  | generateVideos_call (payload : Payload)
  | setTimeout_call (ms : Z)
  | getVideosOperation_call (operation : Operation)
  | fetch_call (url : string).

Definition fullPrompt (I : Interface) (prompt : string) : string :=
  PENCIL_SKETCH_MODIFIER I +:+ " " +:+ prompt
  +:+ ". Maintain rough pencil sketch style with charcoal textures. Animation should be fluid but look like moving sketches.".

(** The payload, with [payload.image] set when [initialImageBase64] is
    truthy. *)
Definition payload (I : Interface) (prompt : string) (initialImageBase64 : option string)
    : Payload :=
  mkPayload "veo-3.1-fast-generate-preview" (fullPrompt I prompt)
    (mkConfig 1 "720p" "16:9")
    (if truthy initialImageBase64
     then Some (mkImage (split "," (or_else initialImageBase64 EmptyString) !! 1%nat)
                  "image/png")
     else None).

(** [while (!operation.done) { wait 10 s; operation = await getVideosOperation }],
    at poll number [k]. *)
Fixpoint poll (I : Interface) (fuel k : nat) (operation : Operation)
    : option (list Call * Settled Operation) :=
  if done operation then Some ([], Fulfilled operation) else
  match fuel with
  | O => None
  | Datatypes.S fuel' =>
      let calls := [setTimeout_call 10000; getVideosOperation_call operation] in
      match getVideosOperation I k operation with
      | Fulfilled operation' =>
          match poll I fuel' (Datatypes.S k) operation' with
          | Some (rest, out) => Some (calls ++ rest, out)
          | None => None
          end
      | Rejected e => Some (calls, Rejected e)
      | Pending => Some (calls, Pending)
      end
  end.

Definition generateSceneVideo (I : Interface) (fuel : nat) (prompt : string)
    (initialImageBase64 : option string) : option (list Call * Settled string) :=
  let payload := payload I prompt initialImageBase64 in
  match generateVideos I payload with
  | Fulfilled operation =>
      match poll I fuel 0 operation with
      | None => None
      | Some (polls, Fulfilled operation) =>
          if negb (truthy (uri operation)) then
            Some (generateVideos_call payload :: polls,
                  Rejected (GenericError "Video generation failed: no download link"))
          else
            let url := or_else (uri operation) EmptyString +:+ "&key=" +:+ API_KEY I in
            Some (generateVideos_call payload :: polls ++ [fetch_call url], fetch_blob I url)
      | Some (polls, Rejected e) => Some (generateVideos_call payload :: polls, Rejected e)
      | Some (polls, Pending) => Some (generateVideos_call payload :: polls, Pending)
      end
  | Rejected e => Some ([generateVideos_call payload], Rejected e)
  | Pending => Some ([generateVideos_call payload], Pending)
  end.

(** The operation the loop holds after [j] polls that were all answered,
    starting from [operation] at poll number [k]. *)
Fixpoint operation_after (I : Interface) (k : nat) (operation : Operation) (j : nat)
    : option Operation :=
  match j with
  | O => Some operation
  | Datatypes.S j' =>
      match getVideosOperation I k operation with
      | Fulfilled operation' => operation_after I (Datatypes.S k) operation' j'
      | _ => None
      end
  end.

(** The number of polls in a list of calls. *)
Definition polls (calls : list Call) : nat :=
  length (List.filter (λ c, match c with getVideosOperation_call _ => true | _ => false end)
            calls).

Definition waits (calls : list Call) : list Z :=
  omap (λ c, match c with setTimeout_call ms => Some ms | _ => None end) calls.

Definition fetches (calls : list Call) : list string :=
  omap (λ c, match c with fetch_call url => Some url | _ => None end) calls.

End VideoAdapter.

(** ** Base64

    [btoa] and [atob] belong to the platform.  These read and write padded
    base64 without white space; on any other text [atob] here gives the
    empty string, where the platform's throws or is more lenient. *)

Module Base64.

Definition alphabet : string :=
  "ABCDEFGHIJKLMNOPQRSTUVWXYZabcdefghijklmnopqrstuvwxyz0123456789+/".

Definition digit (n : N) : ascii :=
  match String.get (N.to_nat n) alphabet with
  | Some c => c
  | None => "="%char
  end.

Definition value (c : ascii) : option N :=
  N.of_nat <$> String.index 0 (String c EmptyString) alphabet.

Fixpoint btoa_list (l : list ascii) : list ascii :=
  match l with
  | [] => []
  | [a] =>
      let n := (N_of_ascii a * 65536)%N in
      [digit (n / 262144); digit ((n / 4096) mod 64); "="%char; "="%char]
  | [a; b] =>
      let n := (N_of_ascii a * 65536 + N_of_ascii b * 256)%N in
      [digit (n / 262144); digit ((n / 4096) mod 64); digit ((n / 64) mod 64); "="%char]
  | a :: b :: c :: rest =>
      let n := (N_of_ascii a * 65536 + N_of_ascii b * 256 + N_of_ascii c)%N in
      digit (n / 262144) :: digit ((n / 4096) mod 64) :: digit ((n / 64) mod 64)
      :: digit (n mod 64) :: btoa_list rest
  end%N.

Definition btoa (s : string) : string :=
  string_of_list_ascii (btoa_list (list_ascii_of_string s)).

Fixpoint atob_list (l : list ascii) : option (list ascii) :=
  match l with
  | [] => Some []
  | c1 :: c2 :: c3 :: c4 :: rest =>
      v1 ← value c1;
      v2 ← value c2;
      let n12 := (v1 * 262144 + v2 * 4096)%N in
      if Ascii.eqb c3 "=" then
        if Ascii.eqb c4 "=" then
          match rest with
          | [] => Some [ascii_of_N (n12 / 65536)]
          | _ => None
          end
        else None
      else
        v3 ← value c3;
        if Ascii.eqb c4 "=" then
          match rest with
          | [] =>
              let n := (n12 + v3 * 64)%N in
              Some [ascii_of_N (n / 65536); ascii_of_N ((n / 256) mod 256)]
          | _ => None
          end
        else
          v4 ← value c4;
          let n := (n12 + v3 * 64 + v4)%N in
          bytes ← atob_list rest;
          Some (ascii_of_N (n / 65536) :: ascii_of_N ((n / 256) mod 256)
                :: ascii_of_N (n mod 256) :: bytes)
  | _ => None
  end%N.

Definition atob (s : string) : string :=
  match atob_list (list_ascii_of_string s) with
  | Some bytes => string_of_list_ascii bytes
  | None => EmptyString
  end.

End Base64.

(** ** A reader for the structured output

    [JSON.parse] belongs to the platform.  [JSONText.parse] reads the texts
    the response schema of [analyzeScript] describes: an array of objects
    whose members are strings, integers or [null].  It rejects every text
    that is not JSON; of the JSON texts it reads only those of that shape
    (no fractions or exponents, no [\u] escapes, no nesting). *)

Module JSONText.

Import JS.

Definition quote : ascii := ascii_of_nat 34.
Definition backslash : ascii := ascii_of_nat 92.

Inductive Value : Type :=
  | VString (s : string)
  | VInt (n : Z)
  | VNull.

Inductive Token : Type :=
  | TLBracket | TRBracket | TLBrace | TRBrace | TComma | TColon
  | TValue (v : Value).

Definition is_ws (c : ascii) : bool :=
  let n := nat_of_ascii c in
  ((n =? 32) || (n =? 9) || (n =? 10) || (n =? 13))%nat.

Definition digit (c : ascii) : option Z :=
  let n := nat_of_ascii c in
  if ((48 <=? n) && (n <=? 57))%nat then Some (Z.of_nat n - 48) else None.

Definition unescape (c : ascii) : option ascii :=
  let n := nat_of_ascii c in
  if (n =? 34)%nat then Some c            (* quotation mark *)
  else if (n =? 92)%nat then Some c       (* reverse solidus *)
  else if (n =? 47)%nat then Some c       (* solidus *)
  else if (n =? 98)%nat then Some (ascii_of_nat 8)
  else if (n =? 102)%nat then Some (ascii_of_nat 12)
  else if (n =? 110)%nat then Some (ascii_of_nat 10)
  else if (n =? 114)%nat then Some (ascii_of_nat 13)
  else if (n =? 116)%nat then Some (ascii_of_nat 9)
  else None.

(** The characters of a string literal after its opening quote. *)
Fixpoint lex_string (s : list ascii) (acc : list ascii) : option (string * list ascii) :=
  match s with
  | [] => None
  | c :: s' =>
      if Ascii.eqb c quote then Some (string_of_list_ascii (rev acc), s')
      else if Ascii.eqb c backslash then
        match s' with
        | e :: s'' =>
            match unescape e with
            | Some d => lex_string s'' (d :: acc)
            | None => None
            end
        | [] => None
        end
      else if (nat_of_ascii c <? 32)%nat then None
      else lex_string s' (c :: acc)
  end.

Fixpoint lex_digits (s : list ascii) (acc : Z) : Z * list ascii :=
  match s with
  | c :: s' =>
      match digit c with
      | Some d => lex_digits s' (10 * acc + d)
      | None => (acc, s)
      end
  | [] => (acc, s)
  end.

(** An integer literal: digits without a leading zero, and nothing of a
    fraction or exponent after them. *)
Definition lex_int (s : list ascii) : option (Z * list ascii) :=
  match s with
  | c :: s' =>
      match digit c with
      | Some d =>
          let '(n, rest) := if d =? 0 then (0, s') else lex_digits s' d in
          match rest with
          | c' :: _ =>
              if from_option (λ _, true) false (digit c') || Ascii.eqb c' "."
                 || Ascii.eqb c' "e" || Ascii.eqb c' "E"
              then None else Some (n, rest)
          | [] => Some (n, rest)
          end
      | None => None
      end
  | [] => None
  end.

Fixpoint lex (fuel : nat) (s : list ascii) : option (list Token) :=
  match fuel with
  | O => None
  | Datatypes.S fuel' =>
      match s with
      | [] => Some []
      | c :: s' =>
          if is_ws c then lex fuel' s'
          else if Ascii.eqb c "[" then (TLBracket ::.) <$> lex fuel' s'
          else if Ascii.eqb c "]" then (TRBracket ::.) <$> lex fuel' s'
          else if Ascii.eqb c "{" then (TLBrace ::.) <$> lex fuel' s'
          else if Ascii.eqb c "}" then (TRBrace ::.) <$> lex fuel' s'
          else if Ascii.eqb c "," then (TComma ::.) <$> lex fuel' s'
          else if Ascii.eqb c ":" then (TColon ::.) <$> lex fuel' s'
          else if Ascii.eqb c quote then
            '(str, rest) ← lex_string s' [];
            (TValue (VString str) ::.) <$> lex fuel' rest
          else if Ascii.eqb c "-" then
            '(n, rest) ← lex_int s';
            (TValue (VInt (- n)) ::.) <$> lex fuel' rest
          else if Ascii.eqb c "n" then
            match s' with
            | "u"%char :: "l"%char :: "l"%char :: rest =>
                (TValue VNull ::.) <$> lex fuel' rest
            | _ => None
            end
          else
            '(n, rest) ← lex_int s;
            (TValue (VInt n) ::.) <$> lex fuel' rest
      end
  end.

(** The members of an object after its opening brace, up to and including
    the closing brace. *)
Fixpoint members (ts : list Token) : option (list (string * Value) * list Token) :=
  match ts with
  | TValue (VString k) :: TColon :: TValue v :: TRBrace :: rest => Some ([(k, v)], rest)
  | TValue (VString k) :: TColon :: TValue v :: TComma :: rest =>
      '(ms, rest') ← members rest;
      Some ((k, v) :: ms, rest')
  | _ => None
  end.

Definition object (ts : list Token) : option (list (string * Value) * list Token) :=
  match ts with
  | TLBrace :: TRBrace :: rest => Some ([], rest)
  | TLBrace :: rest => members rest
  | _ => None
  end.

(** The value of property [k]: the last member of that name. *)
Definition property (k : string) (ms : list (string * Value)) : option Value :=
  snd <$> find (λ m, String.eqb (fst m) k) (rev ms).

(** The segment an object stands for, when its members have the types the
    schema gives them. *)
Definition segment (ms : list (string * Value)) : option Segment :=
  match property "description" ms, property "dialogue" ms with
  | Some (VString d), Some (VString l) =>
      match property "order" ms with
      | Some (VInt n) => Some (mkSegment (Some n) d l)
      | Some VNull | None => Some (mkSegment None d l)
      | Some (VString _) => None
      end
  | _, _ => None
  end.

(** The elements of an array after its first one, up to and including the
    closing bracket. *)
Fixpoint elements (fuel : nat) (ts : list Token) : option (list Segment * list Token) :=
  match fuel with
  | O => None
  | Datatypes.S fuel' =>
      match ts with
      | TRBracket :: rest => Some ([], rest)
      | TComma :: rest =>
          '(ms, rest') ← object rest;
          seg ← segment ms;
          '(segs, rest'') ← elements fuel' rest';
          Some (seg :: segs, rest'')
      | _ => None
      end
  end.

Definition array (ts : list Token) : option (list Segment) :=
  match ts with
  | TLBracket :: TRBracket :: [] => Some []
  | TLBracket :: rest =>
      '(ms, rest') ← object rest;
      seg ← segment ms;
      match elements (length rest') rest' with
      | Some (segs, []) => Some (seg :: segs)
      | _ => None
      end
  | _ => None
  end.

Definition parse (text : string) : Error + list Segment :=
  let s := list_ascii_of_string text in
  match lex (Datatypes.S (length s)) s ≫= array with
  | Some sceneData => inr sceneData
  | None => inl (SyntaxError "Unexpected token in JSON")
  end.

End JSONText.


(** ** Vocabulary of the statements *)

Module Layout.

Import JS.

(** The [len] bytes at offset [off]. *)
Definition slice (off len : nat) (bytes : list Z) : list Z := take len (drop off bytes).

(** The number a little-endian byte sequence stands for. *)
Definition le_value (bytes : list Z) : Z := foldr (λ b acc, b + 256 * acc) 0 bytes.

(** The layout of the 44-byte header for a data chunk of [L] bytes. *)
Definition header_layout (L : Z) (header : list Z) : Prop :=
  length header = 44%nat ∧
  Forall (λ b, 0 ≤ b < 256) header ∧
  slice 0 4 header = charCodes "RIFF" ∧
  le_value (slice 4 4 header) = 36 + L ∧
  slice 8 4 header = charCodes "WAVE" ∧
  slice 12 4 header = charCodes "fmt " ∧
  le_value (slice 16 4 header) = 16 ∧
  le_value (slice 20 2 header) = 1 ∧
  le_value (slice 22 2 header) = 1 ∧
  le_value (slice 24 4 header) = 24000 ∧
  le_value (slice 28 4 header) = 48000 ∧
  le_value (slice 32 2 header) = 2 ∧
  le_value (slice 34 2 header) = 16 ∧
  slice 36 4 header = charCodes "data" ∧
  le_value (slice 40 4 header) = L.

(** The header as a function of the two fields that depend on the length. *)
Definition header_of (riffSize dataSize : Z) : list Z :=
  [82; 73; 70; 70] ++ JS.bytes_of 4 riffSize true ++
  [87; 65; 86; 69; 102; 109; 116; 32; 16; 0; 0; 0; 1; 0; 1; 0;
   192; 93; 0; 0; 128; 187; 0; 0; 2; 0; 16; 0; 100; 97; 116; 97] ++
  JS.bytes_of 4 dataSize true.

End Layout.

Module Trace.

Import Async.

Section Events.
Context {U : Type}.

(** The requests of a trace, in the order in which they were issued. *)
Fixpoint requests (tr : list (Event U)) : list Request :=
  match tr with
  | [] => []
  | Issued r :: rest => r :: requests rest
  | _ :: rest => requests rest
  end.

(** The setter calls of a trace, in order. *)
Fixpoint updates (tr : list (Event U)) : list U :=
  match tr with
  | [] => []
  | Updated u :: rest => u :: updates rest
  | _ :: rest => updates rest
  end.

(** No request is issued while another one is awaited; [outstanding] tells
    whether a request is in flight where the trace begins. *)
Fixpoint in_flight_ok (outstanding : bool) (tr : list (Event U)) : bool :=
  match tr with
  | [] => true
  | Issued _ :: rest => negb outstanding && in_flight_ok true rest
  | Resumed :: rest => in_flight_ok false rest
  | Updated _ :: rest => in_flight_ok outstanding rest
  end.

Definition one_at_a_time (tr : list (Event U)) : bool := in_flight_ok false tr.
End Events.

End Trace.

Module AppSpec.

Import JS Async Trace.

(** The projects a trace commits through [setProject], in order. *)
Definition commits (tr : list (Event App.Update)) : list (option Project) :=
  omap (λ u, match u with App.setProject p => Some p | _ => None end) (updates tr).

(** A scene without a storyboard image reference: the property is absent or
    the empty string. *)
Definition needs_image (s : Scene) : bool := negb (truthy (storyboardImageUrl s)).

(** The request bulk generation sends for a scene. *)
Definition image_request (size : ImageSize) (s : Scene) : Request :=
  generateStoryboardImage_request (or_else (storyboardPrompt s) (description s)) size.

(** Give the image references [urls], in order, to the scenes that need one;
    scenes that have one, and the scenes left when [urls] runs out, stay as
    they are. *)
Fixpoint assign (urls : list string) (scenes : list Scene) : list Scene :=
  match scenes with
  | [] => []
  | s :: rest =>
      if needs_image s then
        match urls with
        | url :: urls' => App.with_storyboardImageUrl url s :: assign urls' rest
        | [] => s :: rest
        end
      else s :: assign urls rest
  end.

(** What bulk generation does to the provider and to the project. *)
Inductive Step : Type :=
  | Ask (r : Request)                (* an image request is issued *)
  | Commit (p : option Project).     (* [setProject] is called with [p] *)

(** The requests and commits of a trace, in the order of the trace. *)
Fixpoint steps (tr : list (Event App.Update)) : list Step :=
  match tr with
  | [] => []
  | Issued r :: rest => Ask r :: steps rest
  | Updated (App.setProject p) :: rest => Commit p :: steps rest
  | _ :: rest => steps rest
  end.

Fixpoint asks (l : list Step) : list Request :=
  match l with
  | [] => []
  | Ask r :: rest => r :: asks rest
  | Commit _ :: rest => asks rest
  end.

(** Bulk generation as the specification describes it, for a project
    [proj] whose scenes are [done ++ todo], when the provider returns the
    image references [urls] and then, if a scene is still without an image,
    fails or stays silent: scenes are visited in list order; a scene with an
    image is passed over; for a scene without one a request is issued and,
    when it returns a reference, the project with that scene updated is
    committed before the next scene is visited. *)
Fixpoint plan (size : ImageSize) (proj : Project) (done : list Scene)
    (urls : list string) (todo : list Scene) : list Step :=
  match todo with
  | [] => []
  | s :: rest =>
      if needs_image s then
        match urls with
        | url :: urls' =>
            let s' := App.with_storyboardImageUrl url s in
            Ask (image_request size s)
            :: Commit (Some (App.with_scenes (done ++ s' :: rest) proj))
            :: plan size proj (done ++ [s']) urls' rest
        | [] => [Ask (image_request size s)]
        end
      else plan size proj (done ++ [s]) urls rest
  end.




(** [s'] is [s] but for its storyboard image reference. *)
Definition same_but_image (s s' : Scene) : Prop :=
  id s' = id s ∧ order s' = order s ∧ description s' = description s ∧
  dialogue s' = dialogue s ∧ storyboardPrompt s' = storyboardPrompt s ∧
  videoUrl s' = videoUrl s ∧ audioUrl s' = audioUrl s ∧ isApproved s' = isApproved s.

(** [s'] is [s] but for its approval flag. *)
Definition same_but_approval (s s' : Scene) : Prop :=
  id s' = id s ∧ order s' = order s ∧ description s' = description s ∧
  dialogue s' = dialogue s ∧ storyboardImageUrl s' = storyboardImageUrl s ∧
  storyboardPrompt s' = storyboardPrompt s ∧
  videoUrl s' = videoUrl s ∧ audioUrl s' = audioUrl s.

(** Every character of [s] is white space. *)
Definition blank (s : string) : Prop :=
  Forall (λ c, is_space c = true) (list_ascii_of_string s).

(** [sub] occurs in [s]. *)
Definition substring (sub s : string) : Prop :=
  ∃ before after, s = before +:+ sub +:+ after.


End AppSpec.

(** ** Sample environments *)

Module Sample.

Import JS Async.

Definition dq : string := String JSONText.quote EmptyString.


Definition str (s : string) : string := dq +:+ s +:+ dq.



(** Structured output cut off after its first two characters. *)
Definition truncated : string := "[{".

(** A provider that answers every request of a kind in the same way. *)
Definition provider (analysis : Settled (option string))
    (image : nat → Settled (option string)) (video speech : Settled string)
    (chat : Settled (option string)) (videoFirst : bool) : Provider :=
  mkProvider (λ _ _, analysis) (λ n _ _, image n) (λ _ _ _, video) (λ _ _, speech)
    (λ _ _, chat) (λ _, videoFirst) (λ n, "uuid-" +:+ pretty n) JSONText.parse.

Definition scene1 : Scene :=
  mkScene "uuid-0" 1 "A room by day." "Hello!" (Some "data:image/png;base64,AAAA")
    (Some "A room by day.") None None true.

Definition scene2 : Scene :=
  mkScene "uuid-1" 2 "Alice waves." "Bye." None (Some "Alice waves.") None None false.

Definition scene3 : Scene :=
  mkScene "uuid-2" 3 "Alice leaves." "..." None None None None false.

Definition project : Project := mkProject "My New Animation" "INT. ROOM - DAY" [scene1; scene2; scene3].

(** The first image request is answered, every later one fails. *)
Definition one_image (n : nat) : Settled (option string) :=
  match n with
  | O => Fulfilled (Some "BBBB")
  | _ => Rejected (GenericError "quota exceeded")
  end.

Definition app (p : option Project) (scriptInput : string) : Run App.State :=
  mkRun (App.mkState p None None Size1K scriptInput true) 0 0.

(** A video interface whose operation is done at the third poll, and one
    whose operation is never done. *)
Definition video_ready_at_3 : VideoAdapter.Interface :=
  VideoAdapter.mkInterface "Pencil sketch." "KEY"
    (λ _, Fulfilled (VideoAdapter.mkOperation false None))
    (λ k _, Fulfilled (VideoAdapter.mkOperation (2 <=? k)%nat
                         (if (2 <=? k)%nat then Some "https://videos.example/v1?alt=media"
                          else None)))
    (λ url, Fulfilled ("blob:" +:+ url)).

Definition video_never_ready : VideoAdapter.Interface :=
  VideoAdapter.mkInterface "Pencil sketch." "KEY"
    (λ _, Fulfilled (VideoAdapter.mkOperation false None))
    (λ _ _, Fulfilled (VideoAdapter.mkOperation false None))
    (λ url, Fulfilled ("blob:" +:+ url)).

Definition chat (messages : list ChatMessage) (input : string) : Run ChatBot.State :=
  mkRun (ChatBot.mkState messages input false) 0 0.

End Sample.

(** * Properties *)

(** ** The audio container encoder *)

Module WavProperties.

Import JS geminiService Layout.

Lemma byte_at_div (v : Z) (k : nat) :
  byte_at v k = (v / 2 ^ (8 * Z.of_nat k)) mod 256.
Proof.
  unfold byte_at.
  rewrite Z.shiftr_div_pow2 by lia.
  change 255 with (Z.ones 8).
  rewrite Z.land_ones by lia.
  reflexivity.
Qed.

Lemma byte_at_range (v : Z) (k : nat) : 0 ≤ byte_at v k < 256.
Proof. rewrite byte_at_div. apply Z.mod_pos_bound. lia. Qed.

(** Four bytes written least significant first read back as the number. *)
Lemma le_value_bytes32 (v : Z) :
  0 ≤ v < 2 ^ 32 →
  le_value (bytes_of 4 v true) = v.
Proof.
  intros Hv. unfold bytes_of, le_value. cbn [seq fmap list_fmap foldr].
  rewrite !byte_at_div.
  change (8 * Z.of_nat 0) with 0. change (8 * Z.of_nat 1) with 8.
  change (8 * Z.of_nat 2) with 16. change (8 * Z.of_nat 3) with 24.
  change (2 ^ 0) with 1. change (2 ^ 8) with 256.
  change (2 ^ 16) with 65536. change (2 ^ 24) with 16777216.
  change (2 ^ 32) with 4294967296 in Hv.
  Z.div_mod_to_equations. lia.
Qed.

(** Integers of magnitude up to [2^53] are doubles. *)
Lemma to_double_exact (x : Z) : Z.abs x ≤ 2 ^ 53 → to_double x = x.
Proof.
  intros Hx. destruct (Z.eq_dec (Z.abs x) (2 ^ 53)) as [Heq | Hne].
  - destruct (Z.abs_eq_or_opp x) as [Hx' | Hx'].
    + rewrite Hx' in Heq. subst x. reflexivity.
    + assert (x = - 2 ^ 53) by lia. subst x. reflexivity.
  - unfold to_double.
    assert (Hlog : Z.log2 (Z.abs x) - 52 ≤ 0).
    { destruct (Z.eq_dec (Z.abs x) 0) as [-> | Hz]; [cbn; lia |].
      assert (Z.log2 (Z.abs x) < 53); [| lia].
      apply Z.log2_lt_pow2; lia. }
    apply Z.leb_le in Hlog. now rewrite Hlog.
Qed.

Lemma number_add_exact (L : Z) : 0 ≤ L → 36 + L ≤ 2 ^ 53 → number_add 36 L = 36 + L.
Proof. intros H0 H1. unfold number_add. apply to_double_exact. lia. Qed.

Lemma createWavHeader_bytes (L : Z) :
  createWavHeader L = Some (header_of (ToUint32 (number_add 36 L)) (ToUint32 L)).
Proof.
  unfold createWavHeader, setUint32, setUint16.
  generalize (ToUint32 (number_add 36 L)) (ToUint32 L). intros a b.
  reflexivity.
Qed.

(** Where the sum is no longer a double: the length [2^53 - 1] gives the
    double [2^53 + 36], so bytes 4-7 hold 36. *)
Lemma createWavHeader_rounds :
  (slice 4 4 <$> createWavHeader (2 ^ 53 - 1)) = Some [36; 0; 0; 0].
Proof. vm_compute. reflexivity. Qed.

Lemma header_of_layout (L : Z) :
  0 ≤ L → 36 + L < 2 ^ 32 →
  header_layout L (header_of (36 + L) L).
Proof.
  intros H0 Hlt.
  assert (Ha := le_value_bytes32 (36 + L)).
  assert (Hb := le_value_bytes32 L).
  unfold header_layout, header_of, slice. cbn [bytes_of] in *.
  cbn [seq fmap list_fmap app take drop length] in *.
  repeat split; try reflexivity; try (apply Ha; lia); try (apply Hb; lia).
  repeat (apply Forall_cons; split; [first [apply byte_at_range | lia] |]).
  apply Forall_nil_2.
Qed.

(** C1.  For a PCM payload of [L] bytes, [L] below [2^32 - 36] as the length
    of every array [decode] returns is (it is the length of a string, which
    no engine lets reach [2^31]), [createWavHeader] returns a 44-byte header
    of bytes with the tags RIFF, WAVE, fmt and data as plain ASCII at
    offsets 0, 8, 12 and 36, the little-endian fields 36 + L, 16, 1, 1,
    24000, 48000, 2, 16 and L at offsets 4, 16, 20, 22, 24, 28, 32, 34 and
    40, and the blob of [generateDialogueSpeech] is that header followed by
    the payload, 44 + L bytes in all. *)
Theorem wav_container_layout (pcmBytes : list Z) :
  36 + Z.of_nat (length pcmBytes) < 2 ^ 32 →
  ∃ header,
    createWavHeader (Z.of_nat (length pcmBytes)) = Some header ∧
    header_layout (Z.of_nat (length pcmBytes)) header ∧
    wavBlob pcmBytes = Some (header ++ pcmBytes) ∧
    length (header ++ pcmBytes) = (44 + length pcmBytes)%nat ∧
    48000 = sampleRate * numChannels * (bitsPerSample / 8) ∧
    2 = numChannels * (bitsPerSample / 8).
Proof.
  intros Hlt.
  set (L := Z.of_nat (length pcmBytes)) in *.
  assert (HL : 0 ≤ L) by (subst L; lia).
  assert (Hlay := header_of_layout L HL Hlt).
  exists (header_of (36 + L) L).
  assert (Hhdr : createWavHeader L = Some (header_of (36 + L) L)).
  { rewrite createWavHeader_bytes, number_add_exact by lia. unfold ToUint32.
    rewrite !Z.mod_small by lia. reflexivity. }
  split; [exact Hhdr |]. split; [exact Hlay |].
  split.
  - unfold wavBlob. fold L. rewrite Hhdr. reflexivity.
  - split; [| split; reflexivity].
    rewrite length_app. destruct Hlay as [Hlen _]. rewrite Hlen. reflexivity.
Qed.

Lemma wav_container_layout_witness :
  36 + Z.of_nat (length [1; 2; 3]) < 2 ^ 32 ∧
  ∃ header,
    createWavHeader (Z.of_nat (length [1; 2; 3])) = Some header ∧
    header_layout (Z.of_nat (length [1; 2; 3])) header ∧
    wavBlob [1; 2; 3] = Some (header ++ [1; 2; 3]) ∧
    length (header ++ [1; 2; 3]) = (44 + length [1; 2; 3])%nat ∧
    48000 = sampleRate * numChannels * (bitsPerSample / 8) ∧
    2 = numChannels * (bitsPerSample / 8).
Proof.
  split; [reflexivity | apply (wav_container_layout [1; 2; 3]); reflexivity].
Defined.

End WavProperties.

(** ** The controller *)

Module AppProperties.

Import JS Async Trace geminiService App AppSpec.

Lemma with_scenes_id (proj : Project) : with_scenes (scenes proj) proj = proj.
Proof. destruct proj; reflexivity. Qed.

Lemma toggle_twice (sceneId : string) (s : Scene) :
  let toggle := λ s, if String.eqb (id s) sceneId
                     then with_isApproved (negb (isApproved s)) s else s in
  toggle (toggle s) = s.
Proof.
  cbn. destruct (String.eqb (id s) sceneId) eqn:E; [| now rewrite E].
  cbn. rewrite E. destruct s; cbn. now rewrite negb_involutive.
Qed.

(** C7.  Two calls of [handleApproveScene] for the same scene leave the run
    as it was; no request is issued; and after the first call every scene
    with that identifier has its flag negated while every other scene is
    the same. *)
Theorem handleApproveScene_twice (sceneId : string) (r : Run State) :
  let '(r1, t1, o1) := handleApproveScene sceneId r in
  let '(r2, t2, o2) := handleApproveScene sceneId r1 in
  r2 = r ∧ o1 = Fulfilled tt ∧ o2 = Fulfilled tt ∧
  requests (t1 ++ t2) = [] ∧ issued r1 = issued r ∧
  ∀ proj, project (state r) = Some proj →
    ∃ proj1, project (state r1) = Some proj1 ∧
      title proj1 = title proj ∧ script proj1 = script proj ∧
      length (scenes proj1) = length (scenes proj) ∧
      ∀ i s, scenes proj !! i = Some s →
        ∃ s1, scenes proj1 !! i = Some s1 ∧
          (id s = sceneId → isApproved s1 = negb (isApproved s)) ∧
          (id s ≠ sceneId → s1 = s).
Proof.
  destruct r as [st n d].
  unfold handleApproveScene, bind, read, update, ret. cbn.
  destruct (project st) as [proj |] eqn:Hp; cbn.
  - repeat split.
    + f_equal. rewrite <- list_fmap_compose.
      rewrite (list_fmap_ext _ (λ s, s) (scenes proj)).
      * rewrite list_fmap_id. destruct proj, st; cbn in *. now subst.
      * intros i s _. apply (toggle_twice sceneId s).
    + intros proj0 [= <-]. eexists. split; [reflexivity |]. cbn.
      repeat split; [apply length_fmap |].
      intros i s Hs. rewrite list_lookup_fmap, Hs. cbn.
      eexists. split; [reflexivity |].
      destruct (String.eqb_spec (id s) sceneId); split; intros; cbn; congruence.
  - rewrite Hp. cbn. repeat split. intros ? [=].
Qed.

(** C8.  [handleUpdatePrompt] issues no request and calls one setter; in
    the project it commits, every scene keeps its identifier, order,
    description, dialogue, image, video and audio references and approval
    flag; a scene with the given identifier has the new prompt, and every
    other scene is the same.  Nothing else in the state changes. *)
Theorem handleUpdatePrompt_frame (sceneId newPrompt : string) (r : Run State)
    (proj : Project) :
  project (state r) = Some proj →
  let '(r', tr, out) := handleUpdatePrompt sceneId newPrompt r in
  ∃ proj',
    project (state r') = Some proj' ∧ tr = [Updated (setProject (Some proj'))] ∧
    out = Fulfilled tt ∧ requests tr = [] ∧ issued r' = issued r ∧
    loading (state r') = loading (state r) ∧ error (state r') = error (state r) ∧
    hasApiKey (state r') = hasApiKey (state r) ∧
    title proj' = title proj ∧ script proj' = script proj ∧
    length (scenes proj') = length (scenes proj) ∧
    ∀ i s, scenes proj !! i = Some s →
      ∃ s', scenes proj' !! i = Some s' ∧
        id s' = id s ∧ order s' = order s ∧
        description s' = description s ∧ dialogue s' = dialogue s ∧
        storyboardImageUrl s' = storyboardImageUrl s ∧
        videoUrl s' = videoUrl s ∧ audioUrl s' = audioUrl s ∧
        isApproved s' = isApproved s ∧
        (id s = sceneId → storyboardPrompt s' = Some newPrompt) ∧
        (id s ≠ sceneId → s' = s).
Proof.
  intros Hp. destruct r as [st n d]. cbn in Hp.
  unfold handleUpdatePrompt, bind, read, update, ret. cbn. rewrite Hp. cbn.
  eexists. split; [reflexivity |]. split; [reflexivity |].
  repeat split; [apply length_fmap |].
  intros i s Hs. cbn. rewrite list_lookup_fmap, Hs. cbn.
  eexists. split; [reflexivity |].
  destruct (String.eqb_spec (id s) sceneId); repeat split; intros; cbn; congruence.
Qed.

Lemma handleUpdatePrompt_frame_witness :
  project (state (Sample.app (Some Sample.project) EmptyString)) = Some Sample.project ∧
  let '(r', tr, out) :=
    handleUpdatePrompt "uuid-1" "Alice waves, in charcoal."
      (Sample.app (Some Sample.project) EmptyString) in
  ∃ proj',
    project (state r') = Some proj' ∧ tr = [Updated (setProject (Some proj'))] ∧
    out = Fulfilled tt ∧ requests tr = [] ∧ issued r' = 0%nat ∧
    loading (state r') = None ∧ error (state r') = None ∧
    hasApiKey (state r') = true ∧
    title proj' = title Sample.project ∧ script proj' = script Sample.project ∧
    length (scenes proj') = length (scenes Sample.project) ∧
    ∀ i s, scenes Sample.project !! i = Some s →
      ∃ s', scenes proj' !! i = Some s' ∧
        id s' = id s ∧ order s' = order s ∧
        description s' = description s ∧ dialogue s' = dialogue s ∧
        storyboardImageUrl s' = storyboardImageUrl s ∧
        videoUrl s' = videoUrl s ∧ audioUrl s' = audioUrl s ∧
        isApproved s' = isApproved s ∧
        (id s = "uuid-1" → storyboardPrompt s' = Some "Alice waves, in charcoal.") ∧
        (id s ≠ "uuid-1" → s' = s).
Proof.
  split; [reflexivity |].
  exact (handleUpdatePrompt_frame "uuid-1" "Alice waves, in charcoal."
           (Sample.app (Some Sample.project) EmptyString) Sample.project eq_refl).
Defined.

(** C9.  When the project has no scene with the given identifier, or the
    first such scene has no storyboard image reference, or there is no
    project, [handleGenerateFinalVideo] does nothing: no event at all (no
    request, no setter), and the run is the same. *)
Theorem handleGenerateFinalVideo_noop (P : Provider) (sceneId : string) (r : Run State) :
  (∀ proj scene,
     project (state r) = Some proj →
     find (λ s, String.eqb (id s) sceneId) (scenes proj) = Some scene →
     truthy (storyboardImageUrl scene) = false) →
  handleGenerateFinalVideo P sceneId r = (r, [], Fulfilled tt).
Proof.
  intros H. destruct r as [st n d]. cbn in H.
  unfold handleGenerateFinalVideo, bind, read, ret. cbn.
  destruct (project st) as [proj |]; [| reflexivity].
  destruct (find _ (scenes proj)) as [scene |] eqn:Hf; [| reflexivity].
  rewrite (H proj scene eq_refl Hf). reflexivity.
Qed.

Lemma handleGenerateFinalVideo_noop_witness :
  (∀ proj scene,
     project (state (Sample.app (Some Sample.project) EmptyString)) = Some proj →
     find (λ s, String.eqb (id s) "uuid-1") (scenes proj) = Some scene →
     truthy (storyboardImageUrl scene) = false) ∧
  handleGenerateFinalVideo
    (Sample.provider Pending (λ _, Pending) Pending Pending Pending true)
    "uuid-1" (Sample.app (Some Sample.project) EmptyString)
  = (Sample.app (Some Sample.project) EmptyString, [], Fulfilled tt).
Proof.
  assert (Hpre : ∀ proj scene,
     project (state (Sample.app (Some Sample.project) EmptyString)) = Some proj →
     find (λ s, String.eqb (id s) "uuid-1") (scenes proj) = Some scene →
     truthy (storyboardImageUrl scene) = false).
  { intros proj scene Hp Hf. injection Hp as <-. vm_compute in Hf.
    injection Hf as <-. reflexivity. }
  split; [exact Hpre |].
  exact (handleGenerateFinalVideo_noop _ "uuid-1" _ Hpre).
Defined.

Lemma prefix_spec (sub s : string) :
  String.prefix sub s = true ↔ ∃ after, s = sub +:+ after.
Proof.
  revert s. induction sub as [| a sub IH]; intros s.
  - split; [intros _; exists s; reflexivity | intros _; destruct s; reflexivity].
  - destruct s as [| b s]; cbn.
    + split; [discriminate | intros [after [=]]].
    + destruct (ascii_dec a b) as [-> | Hne].
      * rewrite IH. split; intros [after H]; exists after.
        -- rewrite H. reflexivity.
        -- change (String b s = String b (sub +:+ after)) in H. congruence.
      * split; [discriminate |]. intros [after H].
        change (String b s = String a (sub +:+ after)) in H. congruence.
Qed.

Lemma includes_spec (s sub : string) :
  includes s sub = true ↔ substring sub s.
Proof.
  split.
  - induction s as [| c s IH]; cbn [includes]; intros H.
    + rewrite orb_false_r in H. apply prefix_spec in H as [after ->].
      exists EmptyString, after. reflexivity.
    + apply orb_true_iff in H as [H | H].
      * apply prefix_spec in H as [after ->]. exists EmptyString, after. reflexivity.
      * destruct (IH H) as (before & after & ->).
        exists (String c before), after. reflexivity.
  - intros (before & after & ->).
    induction before as [| c before IH].
    + assert (Hp : String.prefix sub (sub +:+ after) = true)
        by (apply prefix_spec; eauto).
      change (EmptyString +:+ sub +:+ after) with (sub +:+ after).
      destruct (sub +:+ after); cbn [includes]; now rewrite Hp.
    + change (String c before +:+ sub +:+ after)
        with (String c (before +:+ sub +:+ after)).
      cbn [includes]. rewrite IH. apply orb_true_r.
Qed.

(** C4.  When the scene has a storyboard image, [handleGenerateFinalVideo]
    issues the video request and the speech request one after the other
    before it awaits anything, so both are in flight together, however
    either settles; it resumes once on their join.  When both are fulfilled
    it then commits one project in which every scene with the given
    identifier has both references and every other scene is the same.  When
    either is rejected it commits no project and the project of the state is
    the one it was. *)
Theorem handleGenerateFinalVideo_join (P : Provider) (sceneId : string)
    (r : Run State) (proj : Project) (scene : Scene) :
  project (state r) = Some proj →
  find (λ s, String.eqb (id s) sceneId) (scenes proj) = Some scene →
  truthy (storyboardImageUrl scene) = true →
  let videoRequest :=
    generateSceneVideo_request (or_else (storyboardPrompt scene) (description scene))
      (storyboardImageUrl scene) in
  let speechRequest := generateDialogueSpeech_request (dialogue scene) in
  let video :=
    generateSceneVideo_result P (issued r)
      (or_else (storyboardPrompt scene) (description scene)) (storyboardImageUrl scene) in
  let speech := generateDialogueSpeech_result P (Datatypes.S (issued r)) (dialogue scene) in
  let '(r', tr, out) := handleGenerateFinalVideo P sceneId r in
  (∃ msg rest,
     tr = Updated (setLoading (Some msg)) :: Issued videoRequest :: Issued speechRequest :: rest ∧
     requests rest = [] ∧
     (rest = [] ∨ ∃ rest', rest = Resumed :: rest')) ∧
  one_at_a_time tr = false ∧
  (∀ v a,
     video = Fulfilled v → speech = Fulfilled a →
     ∃ msg proj',
       tr = [Updated (setLoading (Some msg)); Issued videoRequest; Issued speechRequest;
             Resumed; Updated (setProject (Some proj')); Updated (setLoading None)] ∧
       project (state r') = Some proj' ∧ out = Fulfilled tt ∧
       title proj' = title proj ∧ script proj' = script proj ∧
       length (scenes proj') = length (scenes proj) ∧
       ∀ i s, scenes proj !! i = Some s →
         ∃ s', scenes proj' !! i = Some s' ∧
           (id s ≠ sceneId → s' = s) ∧
           (id s = sceneId →
              videoUrl s' = Some v ∧ audioUrl s' = Some a ∧
              id s' = id s ∧ order s' = order s ∧ description s' = description s ∧
              dialogue s' = dialogue s ∧ storyboardImageUrl s' = storyboardImageUrl s ∧
              storyboardPrompt s' = storyboardPrompt s ∧ isApproved s' = isApproved s)) ∧
  ((∃ e, video = Rejected e) ∨ (∃ e, speech = Rejected e) →
     commits tr = [] ∧ project (state r') = project (state r) ∧
     out = Fulfilled tt ∧ loading (state r') = None ∧ is_Some (error (state r'))).
Proof.
  intros Hp Hf Ht. destruct r as [st n d]. cbn in Hp.
  unfold handleGenerateFinalVideo, bind, read, ret. cbn.
  rewrite Hp. cbn. rewrite Hf, Ht. cbn.
  unfold finally, try_catch, bind, generateSceneVideo, generateDialogueSpeech,
    await_all, await, start, update. cbn.
  destruct (generateSceneVideo_result P n _ _) as [v | ev |] eqn:Hv;
    destruct (generateDialogueSpeech_result P (Datatypes.S n) _) as [a | ea |] eqn:Ha;
    cbn;
    repeat match goal with
      | |- context [first_wins ?Q ?k] => destruct (first_wins Q k)
      | |- context [includes ?m ?sub] => destruct (includes m sub)
      end;
    cbn.
  all: split; [do 2 eexists; split; [reflexivity | split; [reflexivity | eauto]] |].
  all: split; [reflexivity |].
  all: split; [intros v' a' Hv' Ha'; try discriminate |].
  all: try (intros [[e He] | [e He]]; try discriminate;
            repeat split; cbn; try rewrite Hp; eauto).
  injection Hv' as <-. injection Ha' as <-.
  do 2 eexists. split; [reflexivity |]. cbn.
  repeat split; [apply length_fmap |].
  intros i s Hs. rewrite list_lookup_fmap, Hs. cbn.
  eexists. split; [reflexivity |].
  destruct (String.eqb_spec (id s) sceneId); repeat split; intros; cbn; congruence.
Qed.

Lemma handleGenerateFinalVideo_join_witness :
  let P := Sample.provider Pending (λ _, Pending) (Fulfilled "blob:video")
             (Fulfilled "blob:audio") Pending true in
  let r := Sample.app (Some Sample.project) EmptyString in
  project (state r) = Some Sample.project ∧
  find (λ s, String.eqb (id s) "uuid-0") (scenes Sample.project) = Some Sample.scene1 ∧
  truthy (storyboardImageUrl Sample.scene1) = true ∧
  one_at_a_time (snd (fst (handleGenerateFinalVideo P "uuid-0" r))) = false ∧
  (videoUrl <$> (project (state (fst (fst (handleGenerateFinalVideo P "uuid-0" r))))
                 ≫= λ p, scenes p !! 0%nat)) = Some (Some "blob:video").
Proof.
  intros P r.
  split; [reflexivity |]. split; [reflexivity |]. split; [reflexivity |].
  pose proof (handleGenerateFinalVideo_join P "uuid-0" r Sample.project Sample.scene1
                eq_refl eq_refl eq_refl) as H.
  cbv zeta in H.
  destruct (handleGenerateFinalVideo P "uuid-0" r) as [[r' tr] out] eqn:E.
  destruct H as (_ & Hconc & _). split; [exact Hconc |].
  vm_compute in E. injection E as <- _ _. reflexivity.
Defined.

(** C5.  When the join of the two requests rejects with [e] (the reason of
    the video or of the speech request), the handler sets the error and
    clears the loading flag, and the project stays as it was.  If
    "Requested entity was not found" occurs in the message of [e], it also
    sets the credential flag to false and the error is the re-selection
    message; if not, the credential flag is the one it was, no call of
    [setHasApiKey] is made, and the error is the message of [e], or
    "Animation generation failed" when that message is empty. *)
Theorem handleGenerateFinalVideo_failure (P : Provider) (sceneId : string)
    (r : Run State) (proj : Project) (scene : Scene) (e : Error) :
  project (state r) = Some proj →
  find (λ s, String.eqb (id s) sceneId) (scenes proj) = Some scene →
  truthy (storyboardImageUrl scene) = true →
  let video :=
    generateSceneVideo_result P (issued r)
      (or_else (storyboardPrompt scene) (description scene)) (storyboardImageUrl scene) in
  let speech := generateDialogueSpeech_result P (Datatypes.S (issued r)) (dialogue scene) in
  promise_all (first_wins P (Datatypes.S (Datatypes.S (issued r)))) video speech = Rejected e →
  let '(r', tr, out) := handleGenerateFinalVideo P sceneId r in
  (video = Rejected e ∨ speech = Rejected e) ∧
  out = Fulfilled tt ∧ loading (state r') = None ∧
  project (state r') = project (state r) ∧
  (substring "Requested entity was not found" (message e) →
     hasApiKey (state r') = false ∧
     error (state r') = Some "API Session expired. Please re-select your key." ∧
     setHasApiKey false ∈ updates tr) ∧
  (¬ substring "Requested entity was not found" (message e) →
     hasApiKey (state r') = hasApiKey (state r) ∧
     error (state r') = Some (or_else (Some (message e)) "Animation generation failed") ∧
     (∀ b, setHasApiKey b ∉ updates tr)).
Proof.
  intros Hp Hf Ht. destruct r as [st n d]. cbn in Hp.
  intros video speech Hjoin. cbn [issued] in video, speech, Hjoin.
  unfold handleGenerateFinalVideo, bind, read, ret. cbn.
  rewrite Hp. cbn. rewrite Hf, Ht. cbn.
  unfold finally, try_catch, bind, generateSceneVideo, generateDialogueSpeech,
    await_all, await, start, update. cbn.
  fold video speech. rewrite Hjoin. cbn.
  assert (Hwho : video = Rejected e ∨ speech = Rejected e).
  { destruct video, speech; cbn in Hjoin; try discriminate;
      try (injection Hjoin as <-; auto).
    destruct (first_wins P _); auto. }
  destruct (includes (message e) "Requested entity was not found") eqn:Hi; cbn;
    (split; [exact Hwho |]).
  - split; [reflexivity |]. split; [reflexivity |]. split; [cbn; now rewrite Hp |].
    split.
    + intros _. split; [reflexivity |]. split; [reflexivity |].
      rewrite !elem_of_cons. auto.
    + intros Hn. destruct Hn. now apply includes_spec.
  - split; [reflexivity |]. split; [reflexivity |]. split; [cbn; now rewrite Hp |].
    split.
    + intros Hs. apply includes_spec in Hs. congruence.
    + intros _. split; [reflexivity |]. split; [reflexivity |].
      intros b Hin. rewrite !elem_of_cons, elem_of_nil in Hin.
      destruct Hin as [Hin | [Hin | [Hin | []]]]; discriminate Hin.
Qed.

Lemma handleGenerateFinalVideo_failure_witness :
  let P := Sample.provider Pending (λ _, Pending)
             (Rejected (GenericError "404: Requested entity was not found."))
             (Fulfilled "blob:audio") Pending true in
  let r := Sample.app (Some Sample.project) EmptyString in
  substring "Requested entity was not found" "404: Requested entity was not found." ∧
  hasApiKey (state r) = true ∧
  hasApiKey (state (fst (fst (handleGenerateFinalVideo P "uuid-0" r)))) = false.
Proof.
  intros P r.
  assert (Hs : substring "Requested entity was not found"
                 "404: Requested entity was not found.")
    by (exists "404: ", "."; reflexivity).
  split; [exact Hs |]. split; [reflexivity |].
  pose proof (handleGenerateFinalVideo_failure P "uuid-0" r Sample.project Sample.scene1
                (GenericError "404: Requested entity was not found.")
                eq_refl eq_refl eq_refl eq_refl) as H.
  destruct (handleGenerateFinalVideo P "uuid-0" r) as [[r' tr] out].
  destruct H as (_ & _ & _ & _ & Hyes & _).
  exact (proj1 (Hyes Hs)).
Defined.

(** C2 (amended).  [analyzeScript] issues one request.  When the text of
    the response is absent or empty it parses "[]" instead, which gives the
    empty list; when the text is not empty it parses that text, and a text
    [JSON.parse] rejects makes [analyzeScript] reject with the parser's
    error. *)
Theorem analyzeScript_parse_boundary {S U : Type} (P : Provider) (script : string)
    (r : Run S) (t : option string) :
  generateContent_text P (issued r) script = Fulfilled t →
  let '(r', tr, out) := analyzeScript (U := U) P script r in
  tr = [Issued (analyzeScript_request script); Resumed] ∧
  state r' = state r ∧
  (truthy t = false → JSON_parse P "[]" = inr [] → out = Fulfilled []) ∧
  (∀ text e, t = Some text → text ≠ EmptyString → JSON_parse P text = inl e →
     out = Rejected e) ∧
  (∀ text sceneData, t = Some text → text ≠ EmptyString →
     JSON_parse P text = inr sceneData → out = Fulfilled sceneData).
Proof.
  intros Hresp. destruct r as [st n d]. cbn in Hresp.
  unfold analyzeScript, bind, start, await. cbn. rewrite Hresp. cbn.
  destruct t as [[| c text] |]; cbn.
  - destruct (JSON_parse P "[]") as [e | l] eqn:Hparse; cbn;
      (split; [reflexivity |]); (split; [reflexivity |]);
      (split; [intros _ [=]; subst; reflexivity |]);
      split; intros ? ? [= <-] Hne; contradiction.
  - destruct (JSON_parse P (String c text)) as [e | l] eqn:Hparse; cbn;
      (split; [reflexivity |]); (split; [reflexivity |]);
      (split; [discriminate |]);
      split; intros ? ? [= <-] _ Hparse'; congruence.
  - destruct (JSON_parse P "[]") as [e | l] eqn:Hparse; cbn;
      (split; [reflexivity |]); (split; [reflexivity |]);
      (split; [intros _ [=]; subst; reflexivity |]);
      split; intros ? ? [=].
Qed.

Lemma analyzeScript_parse_boundary_witness :
  let P := Sample.provider (Fulfilled (Some Sample.truncated)) (λ _, Pending)
             Pending Pending Pending true in
  let r := Sample.app None "INT. ROOM - DAY" in
  generateContent_text P (issued r) "INT. ROOM - DAY" = Fulfilled (Some Sample.truncated) ∧
  Sample.truncated ≠ EmptyString ∧
  JSON_parse P Sample.truncated = inl (SyntaxError "Unexpected token in JSON") ∧
  snd (analyzeScript (U := Update) P "INT. ROOM - DAY" r)
  = Rejected (SyntaxError "Unexpected token in JSON").
Proof.
  intros P r.
  split; [reflexivity |]. split; [discriminate |]. split; [reflexivity |].
  pose proof (analyzeScript_parse_boundary (U := Update) P "INT. ROOM - DAY" r
                (Some Sample.truncated) eq_refl) as H.
  destruct (analyzeScript P "INT. ROOM - DAY" r) as [[r' tr] out].
  destruct H as (_ & _ & _ & Hbad & _).
  exact (Hbad Sample.truncated _ eq_refl ltac:(discriminate) eq_refl).
Defined.

(** C2 as stated fails on a structured output cut off after "[{": the text
    is not JSON, [analyzeScript] rejects with the parser's error instead of
    returning the empty list, and [handleScriptSubmit] reports the error and
    creates no project. *)
Lemma analyzeScript_truncated_output_rejects :
  let P := Sample.provider (Fulfilled (Some Sample.truncated)) (λ _, Pending)
             Pending Pending Pending true in
  let r := Sample.app None "INT. ROOM - DAY" in
  JSON_parse P Sample.truncated = inl (SyntaxError "Unexpected token in JSON") ∧
  snd (analyzeScript (U := Update) P "INT. ROOM - DAY" r)
    = Rejected (SyntaxError "Unexpected token in JSON") ∧
  snd (analyzeScript (U := Update) P "INT. ROOM - DAY" r) ≠ Fulfilled [] ∧
  project (state (fst (fst (handleScriptSubmit P r)))) = None ∧
  error (state (fst (fst (handleScriptSubmit P r)))) = Some "Unexpected token in JSON".
Proof.
  intros P r.
  split; [reflexivity |]. split; [reflexivity |].
  split; [discriminate |]. split; reflexivity.
Qed.






(** *** Bulk generation *)

Lemma requests_asks (tr : list (Event Update)) : requests tr = asks (steps tr).
Proof.
  induction tr as [| [q | | [p | m | m | b]] tr IH]; cbn; congruence.
Qed.


Lemma steps_app (t1 t2 : list (Event Update)) : steps (t1 ++ t2) = steps t1 ++ steps t2.
Proof.
  induction t1 as [| [q | | [p | m | m | b]] t1 IH]; cbn; congruence.
Qed.


Lemma assign_length (l : list Scene) : ∀ urls, length (assign urls l) = length l.
Proof.
  induction l as [| s l IH]; intros urls; cbn; [reflexivity |].
  destruct (needs_image s); [destruct urls |]; cbn; now rewrite ?IH.
Qed.


Lemma plan_with_scenes (size : ImageSize) (proj : Project) (l : list Scene)
    (todo : list Scene) :
  ∀ done urls, plan size (with_scenes l proj) done urls todo = plan size proj done urls todo.
Proof.
  induction todo as [| s rest IH]; intros done urls; cbn; [reflexivity |].
  destruct (needs_image s); [destruct urls as [| u urls] |]; cbn; now rewrite ?IH.
Qed.


(** The loop, started at index [length done] on [done ++ todo]. *)
Lemma generateAll_loop_spec (P : Provider) (size : ImageSize) (todo : list Scene) :
  ∀ (done : list Scene) (r : Run State) (proj : Project),
    project (state r) = Some proj →
    scenes proj = done ++ todo →
    ∃ r' tr out urls,
      generateAll_loop P size (length todo) (length done) (done ++ todo) r = (r', tr, out) ∧
      steps tr = plan size proj done urls todo ∧
      in_flight_ok false tr = true ∧
      Forall (λ u, truthy (Some u) = true) urls ∧
      project (state r') = Some (with_scenes (done ++ assign urls todo) proj) ∧
      error (state r') = error (state r) ∧
      hasApiKey (state r') = hasApiKey (state r) ∧
      match out with
      | Fulfilled _ => length urls = length (List.filter needs_image todo)
      | _ => (length urls < length (List.filter needs_image todo))%nat
      end.
Proof.
  induction todo as [| s rest IH]; intros done r proj Hp Hs.
  - exists r, [], (Fulfilled tt), []. cbn.
    repeat split; try constructor.
    rewrite Hp, <- Hs. now rewrite with_scenes_id.
  - cbn [length generateAll_loop].
    rewrite (list_lookup_middle done rest s (length done) eq_refl).
    fold (needs_image s). cbn [List.filter plan assign].
    destruct (needs_image s) eqn:Hneed.
    + (* a request *)
      unfold bind at 1. unfold update at 1. cbn [state issued drawn].
      unfold bind at 1. unfold generateStoryboardImage, bind at 1. unfold start at 1.
      cbn [state issued drawn app].
      set (prompt := or_else (storyboardPrompt s) (description s)).
      destruct (generateContent_image P (issued r) prompt size) as [[data |] | e |] eqn:Hres.
      * (* a reference comes back *)
        cbn. rewrite Hp. cbn [fmap option_fmap option_map].
        set (url := "data:image/png;base64," +:+ data).
        set (s' := with_storyboardImageUrl url s).
        assert (Hins : <[length done := s']> (done ++ s :: rest) = (done ++ [s']) ++ rest).
        { rewrite <- (Nat.add_0_r (length done)), insert_app_r.
          now rewrite <- app_assoc. }
        rewrite Hins.
        replace (Datatypes.S (length done)) with (length (done ++ [s']))
          by (rewrite length_app; cbn; lia).
        match goal with
        | |- context [generateAll_loop P size _ _ _ ?run] =>
            destruct (IH (done ++ [s']) run (with_scenes ((done ++ [s']) ++ rest) proj)
                        eq_refl eq_refl)
              as (r' & tr & out & urls & Hrun & Hsteps & Hok & Hurls & Hproj & Herr & Hkey & Hout)
        end.
        rewrite Hrun.
        eexists r', _, out, (url :: urls).
        split; [reflexivity |].
        split; [cbn; rewrite Hsteps, plan_with_scenes, <- app_assoc; reflexivity |].
        split; [exact Hok |].
        split; [constructor; [reflexivity | exact Hurls] |].
        split; [rewrite Hproj; cbn; now rewrite <- app_assoc |].
        split; [exact Herr |]. split; [exact Hkey |].
        destruct out; cbn; lia.
      * (* a response without an image *)
        cbn. eexists _, _, _, []. split; [reflexivity |]. cbn.
        repeat split; try lia; try apply Forall_nil_2.
        rewrite Hp, <- Hs. now rewrite with_scenes_id.
      * (* the request fails *)
        cbn. eexists _, _, _, []. split; [reflexivity |]. cbn.
        repeat split; try lia; try apply Forall_nil_2.
        rewrite Hp, <- Hs. now rewrite with_scenes_id.
      * (* the request never settles *)
        cbn. eexists _, _, _, []. split; [reflexivity |]. cbn.
        repeat split; try lia; try apply Forall_nil_2.
        rewrite Hp, <- Hs. now rewrite with_scenes_id.
    + (* the scene has an image *)
      cbn [negb].
      replace (done ++ s :: rest) with ((done ++ [s]) ++ rest) in * by now rewrite <- app_assoc.
      replace (Datatypes.S (length done)) with (length (done ++ [s]))
        by (rewrite length_app; cbn; lia).
      destruct (IH (done ++ [s]) r proj Hp Hs)
        as (r' & tr & out & urls & Hrun & Hsteps & Hok & Hurls & Hproj & Herr & Hkey & Hout).
      exists r', tr, out, urls.
      split; [exact Hrun |]. split; [exact Hsteps |]. split; [exact Hok |].
      split; [exact Hurls |].
      split; [rewrite Hproj; now rewrite <- app_assoc |].
      split; [exact Herr |]. split; [exact Hkey |]. exact Hout.
Qed.

(** Every reference lands in a scene: as many scenes fewer are without an
    image as there are references. *)
Lemma assign_remaining (l : list Scene) :
  ∀ urls,
    Forall (λ u, truthy (Some u) = true) urls →
    (length urls ≤ length (List.filter needs_image l))%nat →
    length (List.filter needs_image (assign urls l))
    = (length (List.filter needs_image l) - length urls)%nat.
Proof.
  induction l as [| s l IH]; intros urls Hurls Hlen; cbn [assign List.filter] in *.
  - cbn in *. lia.
  - destruct (needs_image s) eqn:Hs.
    + destruct urls as [| u urls]; cbn [List.filter length] in *.
      * rewrite Hs. cbn. lia.
      * apply Forall_cons in Hurls as [Hu Hurls].
        unfold needs_image at 1. cbn [with_storyboardImageUrl storyboardImageUrl].
        rewrite Hu. cbn [negb]. rewrite IH by (assumption || lia). lia.
    + cbn [List.filter]. rewrite Hs. now apply IH.
Qed.

(** *** The provider's answers *)








End AppProperties.

(** ** The chat panel *)

Module ChatProperties.

Import JS Async Trace geminiService ChatBot.

(** C10.  [chatWithGemini] on an empty history rejects with the
    [TypeError] of reading [.text] of [undefined], and nothing is sent; on a
    history that ends with a message [m] it sends the text of [m] and
    settles as that request does.  The history [handleSend] passes is the
    stored messages followed by the new user message, so it is never empty
    and its last element is that message: whenever the input is not blank,
    [handleSend] sends exactly one request, with the input as its message,
    and the error reply appears in the transcript only when the provider
    rejects. *)
Theorem handleSend_history_nonempty (P : Provider) :
  (∀ r : Run State,
     chatWithGemini (U := Update) P [] r
     = (r, [], Rejected (TypeError "Cannot read properties of undefined (reading 'text')"))) ∧
  (∀ (r : Run State) (messages : list ChatMessage) (m : ChatMessage),
     ∃ r' tr,
       chatWithGemini (U := Update) P (messages ++ [m]) r
       = (r', Issued (sendMessage_request (text m)) :: tr,
          match sendMessage_text P (issued r) (text m) with
          | Fulfilled t => Fulfilled (or_else t "Sorry, I couldn't process that.")
          | Rejected e => Rejected e
          | Pending => Pending
          end)) ∧
  (∀ st : State,
     history st ≠ [] ∧ last (history st) = Some (mkChatMessage user (input st))) ∧
  (∀ r : Run State,
     let userMsg := mkChatMessage user (input (state r)) in
     let '(r', tr, out) := handleSend P r in
     if truthy (Some (trim (input (state r)))) then
       requests tr = [sendMessage_request (input (state r))] ∧
       match sendMessage_text P (issued r) (input (state r)) with
       | Fulfilled t =>
           out = Fulfilled tt ∧
           ChatBot.messages (state r')
           = ChatBot.messages (state r)
             ++ [userMsg; mkChatMessage model (or_else t "Sorry, I couldn't process that.")]
       | Rejected e =>
           out = Fulfilled tt ∧
           ChatBot.messages (state r')
           = ChatBot.messages (state r)
             ++ [userMsg; mkChatMessage model "Error: Could not reach the AI assistant."]
       | Pending =>
           out = Pending ∧ ChatBot.messages (state r') = ChatBot.messages (state r) ++ [userMsg]
       end
     else tr = [] ∧ r' = r ∧ out = Fulfilled tt).
Proof.
  split; [reflexivity |].
  split.
  { intros r messages m. unfold chatWithGemini. rewrite last_snoc.
    unfold bind, start, await, ret. cbn.
    destruct (sendMessage_text P (issued r) (text m)); cbn; eauto. }
  split.
  { intros st. unfold history. split; [| apply last_snoc].
    intros H. apply app_eq_nil in H as [_ [=]]. }
  intros [st n d]. cbn [state issued].
  unfold handleSend, bind at 1. unfold read. cbn [state].
  destruct (truthy (Some (trim (input st)))) eqn:Hin; cbn [negb]; [| now unfold ret].
  unfold chatWithGemini, history. rewrite last_snoc. cbn [text].
  unfold bind, finally, try_catch, bind, start, await, update_with, update, ret. cbn.
  destruct (sendMessage_text P n (input st)) as [t | e |]; cbn.
  - split; [reflexivity |]. split; [reflexivity |]. now rewrite <- app_assoc.
  - split; [reflexivity |]. split; [reflexivity |]. now rewrite <- app_assoc.
  - split; [reflexivity |]. split; reflexivity.
Qed.

End ChatProperties.

(** * Further properties *)

(** ** The audio path: header, [decode], [encode] *)

Module AudioProperties.

Import JS geminiService Layout.

Lemma le_value_bytes32_mod (v : Z) :
  le_value (bytes_of 4 (ToUint32 v) true) = v mod 2 ^ 32.
Proof.
  apply WavProperties.le_value_bytes32. unfold ToUint32.
  apply Z.mod_pos_bound. reflexivity.
Qed.

Lemma createWavHeader_fields (L : Z) :
  ∃ header,
    createWavHeader L = Some header ∧
    length header = 44%nat ∧
    Forall (λ b, 0 ≤ b < 256) header ∧
    le_value (slice 40 4 header) = L mod 2 ^ 32.
Proof.
  exists (header_of (ToUint32 (number_add 36 L)) (ToUint32 L)).
  split; [apply WavProperties.createWavHeader_bytes |].
  assert (Hb := le_value_bytes32_mod L).
  unfold header_of, slice. cbn [bytes_of] in *.
  cbn [seq fmap list_fmap app take drop length] in *.
  split; [reflexivity |]. split; [| exact Hb].
  repeat (apply Forall_cons; split;
          [first [apply WavProperties.byte_at_range | lia] |]).
  apply Forall_nil_2.
Qed.

(** X1.  [createWavHeader] never throws: for every array length [L] (an
    integer from 0 to [2^53 - 1]) it returns 44 bytes.  The RIFF tag and
    bytes 8-39 do not depend on the argument; bytes 40-43 hold [L] modulo
    [2^32] and bytes 4-7 hold the double [36 + L] modulo [2^32], which is
    the exact sum as long as [L] is at most [2^53 - 36]. *)
Theorem createWavHeader_total (L : Z) :
  0 ≤ L < 2 ^ 53 →
  ∃ header,
    createWavHeader L = Some header ∧
    length header = 44%nat ∧
    Forall (λ b, 0 ≤ b < 256) header ∧
    slice 0 4 header = charCodes "RIFF" ∧
    le_value (slice 4 4 header) = number_add 36 L mod 2 ^ 32 ∧
    (L ≤ 2 ^ 53 - 36 → le_value (slice 4 4 header) = (36 + L) mod 2 ^ 32) ∧
    slice 8 32 header
    = [87; 65; 86; 69; 102; 109; 116; 32; 16; 0; 0; 0; 1; 0; 1; 0;
       192; 93; 0; 0; 128; 187; 0; 0; 2; 0; 16; 0; 100; 97; 116; 97] ∧
    le_value (slice 40 4 header) = L mod 2 ^ 32.
Proof.
  intros HL.
  exists (header_of (ToUint32 (number_add 36 L)) (ToUint32 L)).
  split; [apply WavProperties.createWavHeader_bytes |].
  assert (Ha := le_value_bytes32_mod (number_add 36 L)).
  assert (Hb := le_value_bytes32_mod L).
  unfold header_of, slice. cbn [bytes_of] in *.
  cbn [seq fmap list_fmap app take drop length] in *.
  split; [reflexivity |]. split.
  { repeat (apply Forall_cons; split;
            [first [apply WavProperties.byte_at_range | lia] |]).
    apply Forall_nil_2. }
  split; [reflexivity |]. split; [exact Ha |]. split.
  { intros Hle. rewrite Ha, WavProperties.number_add_exact by lia. reflexivity. }
  split; [reflexivity | exact Hb].
Qed.

Lemma createWavHeader_total_witness :
  ∃ header,
    createWavHeader (2 ^ 32) = Some header ∧
    length header = 44%nat ∧
    le_value (slice 4 4 header) = 36 ∧
    le_value (slice 40 4 header) = 0.
Proof.
  destruct (createWavHeader_total (2 ^ 32) ltac:(lia))
    as (h & H & Hlen & _ & _ & _ & Hsum & _ & Hdata).
  exists h. split; [exact H |]. split; [exact Hlen |].
  split; [apply Hsum; lia | exact Hdata].
Defined.

(** X2.  Among the lengths whose sum with 36 is exact (0 to [2^53 - 36]),
    two give the same header exactly when they are congruent modulo
    [2^32]: below [2^32] the header determines the length, and a length of
    [2^32] or more gives the header of a smaller one. *)
Theorem createWavHeader_congruent (L1 L2 : Z) :
  0 ≤ L1 ≤ 2 ^ 53 - 36 →
  0 ≤ L2 ≤ 2 ^ 53 - 36 →
  createWavHeader L1 = createWavHeader L2 ↔ L1 mod 2 ^ 32 = L2 mod 2 ^ 32.
Proof.
  intros HL1 HL2. split.
  - intros Heq.
    destruct (createWavHeader_fields L1) as (h1 & H1 & _ & _ & Hd1).
    destruct (createWavHeader_fields L2) as (h2 & H2 & _ & _ & Hd2).
    rewrite H1, H2 in Heq. injection Heq as ->. congruence.
  - intros Hmod. rewrite !WavProperties.createWavHeader_bytes.
    rewrite !WavProperties.number_add_exact by lia. unfold ToUint32.
    rewrite <- (Zplus_mod_idemp_r L1), <- (Zplus_mod_idemp_r L2), Hmod.
    reflexivity.
Qed.

Lemma createWavHeader_congruent_witness :
  createWavHeader (2 ^ 32 + 7) = createWavHeader 7.
Proof.
  apply (createWavHeader_congruent (2 ^ 32 + 7) 7); [lia | lia | reflexivity].
Defined.

Lemma length_list_ascii_of_string (s : string) :
  length (list_ascii_of_string s) = String.length s.
Proof. induction s as [| c s IH]; cbn; congruence. Qed.

Lemma charCodes_fromCharCodes (bytes : list Z) :
  Forall (λ b, 0 ≤ b < 256) bytes → charCodes (fromCharCodes bytes) = bytes.
Proof.
  intros H. unfold charCodes, fromCharCodes.
  rewrite list_ascii_of_string_of_list_ascii, <- list_fmap_compose.
  induction H as [| b bytes Hb _ IH]; cbn; [reflexivity |].
  rewrite IH. f_equal.
  rewrite nat_ascii_embedding by lia. lia.
Qed.

Lemma fromCharCodes_charCodes (s : string) : fromCharCodes (charCodes s) = s.
Proof.
  unfold charCodes, fromCharCodes. rewrite <- list_fmap_compose.
  rewrite <- (string_of_list_ascii_of_string s) at 2. f_equal.
  induction (list_ascii_of_string s) as [| c l IH]; cbn; [reflexivity |].
  rewrite IH. f_equal. rewrite Nat2Z.id. apply ascii_nat_embedding.
Qed.

Lemma decode_fields (atob : string → string) (base64 : string) :
  length (decode atob base64) = String.length (atob base64) ∧
  Forall (λ b, 0 ≤ b < 256) (decode atob base64).
Proof.
  unfold decode, charCodes. split.
  - now rewrite length_fmap, length_list_ascii_of_string.
  - apply Forall_fmap, Forall_forall. intros c _. cbn.
    pose proof (nat_ascii_bounded c). lia.
Qed.

(** X3.  [decode] returns one byte for each character of the binary string
    [atob] gives, each between 0 and 255, and [String.fromCharCode] over
    them gives that string back. *)
Theorem decode_bytes (atob : string → string) (base64 : string) :
  length (decode atob base64) = String.length (atob base64) ∧
  Forall (λ b, 0 ≤ b < 256) (decode atob base64) ∧
  fromCharCodes (decode atob base64) = atob base64.
Proof.
  unfold decode. split; [| split].
  - unfold charCodes. now rewrite length_fmap, length_list_ascii_of_string.
  - unfold charCodes. apply Forall_fmap, Forall_forall. intros c _. cbn.
    pose proof (nat_ascii_bounded c). lia.
  - apply fromCharCodes_charCodes.
Qed.

(** X4.  [decode] undoes [encode] on every array of bytes for which [atob]
    undoes [btoa]. *)
Theorem decode_encode (atob btoa : string → string) (bytes : list Z) :
  Forall (λ b, 0 ≤ b < 256) bytes →
  atob (btoa (fromCharCodes bytes)) = fromCharCodes bytes →
  decode atob (encode btoa bytes) = bytes.
Proof.
  intros Hbytes Hplatform. unfold decode, encode.
  rewrite Hplatform. now apply charCodes_fromCharCodes.
Qed.

Lemma decode_encode_witness :
  Forall (λ b, 0 ≤ b < 256) [82; 73; 70; 70; 0; 255] ∧
  Base64.atob (Base64.btoa (fromCharCodes [82; 73; 70; 70; 0; 255]))
  = fromCharCodes [82; 73; 70; 70; 0; 255] ∧
  encode Base64.btoa [82; 73; 70; 70; 0; 255] = "UklGRgD/" ∧
  decode Base64.atob (encode Base64.btoa [82; 73; 70; 70; 0; 255])
  = [82; 73; 70; 70; 0; 255].
Proof.
  assert (Hb : Forall (λ b, 0 ≤ b < 256) [82; 73; 70; 70; 0; 255])
    by (repeat (apply Forall_cons; split; [lia |]); apply Forall_nil_2).
  split; [exact Hb |]. split; [reflexivity |]. split; [reflexivity |].
  exact (decode_encode Base64.atob Base64.btoa [82; 73; 70; 70; 0; 255] Hb eq_refl).
Defined.

(** X5.  The blob of [generateDialogueSpeech]: without inline audio, or with
    an empty one, the adapter throws "No audio data returned"; with any
    other, once [atob] has returned its binary string of [L] characters,
    nothing throws, and the blob is the header [createWavHeader] returns for
    [L] followed by the decoded bytes, all of them between 0 and 255.  That
    header is 44 bytes: the RIFF tag, the double [36 + L] modulo [2^32], the
    32 bytes that never change, and [L] modulo [2^32]; it has the layout of
    the container for [L] as long as [36 + L] is below [2^32]. *)
Theorem speechBlob_cases (atob : string → string) :
  speechBlob atob None = inl (GenericError "No audio data returned") ∧
  speechBlob atob (Some EmptyString) = inl (GenericError "No audio data returned") ∧
  ∀ c rest,
    let base64Audio := String c rest in
    let pcmBytes := decode atob base64Audio in
    let L := Z.of_nat (String.length (atob base64Audio)) in
    ∃ header,
      createWavHeader (Z.of_nat (length pcmBytes)) = Some header ∧
      speechBlob atob (Some base64Audio) = inr (header ++ pcmBytes) ∧
      take 44 (header ++ pcmBytes) = header ∧
      drop 44 (header ++ pcmBytes) = pcmBytes ∧
      length (header ++ pcmBytes) = (44 + String.length (atob base64Audio))%nat ∧
      Forall (λ b, 0 ≤ b < 256) (header ++ pcmBytes) ∧
      header = header_of (number_add 36 L mod 2 ^ 32) (L mod 2 ^ 32) ∧
      slice 0 4 header = charCodes "RIFF" ∧
      le_value (slice 4 4 header) = number_add 36 L mod 2 ^ 32 ∧
      slice 8 32 header
      = [87; 65; 86; 69; 102; 109; 116; 32; 16; 0; 0; 0; 1; 0; 1; 0;
         192; 93; 0; 0; 128; 187; 0; 0; 2; 0; 16; 0; 100; 97; 116; 97] ∧
      le_value (slice 40 4 header) = L mod 2 ^ 32 ∧
      (36 + L < 2 ^ 32 → header_layout L header).
Proof.
  split; [reflexivity |]. split; [reflexivity |].
  intros c rest. cbv zeta. set (base64Audio := String c rest).
  destruct (decode_fields atob base64Audio) as (Hlen & Hrange).
  rewrite Hlen. set (L := Z.of_nat (String.length (atob base64Audio))).
  assert (HL : 0 ≤ L) by (subst L; lia).
  set (header := header_of (ToUint32 (number_add 36 L)) (ToUint32 L)).
  assert (Hh : createWavHeader L = Some header)
    by apply WavProperties.createWavHeader_bytes.
  assert (Hl : length header = 44%nat) by reflexivity.
  assert (Hr : Forall (λ b, 0 ≤ b < 256) header).
  { subst header. unfold header_of. cbn [bytes_of seq fmap list_fmap app].
    repeat (apply Forall_cons; split;
            [first [apply WavProperties.byte_at_range | lia] |]).
    apply Forall_nil_2. }
  exists header.
  split; [exact Hh |]. split.
  { unfold speechBlob.
    change (negb (truthy (Some base64Audio))) with false.
    change (or_else (Some base64Audio) EmptyString) with base64Audio.
    unfold wavBlob. rewrite Hlen. fold L. rewrite Hh. reflexivity. }
  split; [rewrite take_app_length'; [reflexivity | exact Hl] |].
  split; [rewrite drop_app_length'; [reflexivity | exact Hl] |].
  split; [rewrite length_app, Hl, Hlen; reflexivity |].
  split; [apply Forall_app; split; assumption |].
  split; [reflexivity |].
  split; [reflexivity |].
  split.
  { subst header. unfold header_of, slice.
    cbn [app take drop]. apply le_value_bytes32_mod. }
  split; [reflexivity |].
  split.
  { subst header. unfold header_of, slice.
    cbn [bytes_of seq fmap list_fmap app take drop].
    apply (le_value_bytes32_mod L). }
  intros Hlt. subst header.
  rewrite WavProperties.number_add_exact by lia. unfold ToUint32.
  rewrite !Z.mod_small by lia.
  now apply WavProperties.header_of_layout.
Qed.

Lemma speechBlob_cases_witness :
  ∃ header,
    speechBlob Base64.atob (Some "UklGRgD/") = inr (header ++ [82; 73; 70; 70; 0; 255]) ∧
    header_layout 6 header.
Proof.
  destruct (speechBlob_cases Base64.atob) as (_ & _ & H).
  destruct (H "U"%char "klGRgD/")
    as (header & _ & Hblob & _ & _ & _ & _ & _ & _ & _ & _ & _ & Hlayout).
  exists header. split; [exact Hblob | apply Hlayout; reflexivity].
Defined.

End AudioProperties.

(** ** The video adapter *)

Module VideoProperties.

Import JS VideoAdapter.

Lemma split_without (sep : ascii) (s : string) :
  Forall (λ c, c ≠ sep) (list_ascii_of_string s) → split sep s = [s].
Proof.
  induction s as [| c s IH]; cbn [list_ascii_of_string split]; intros H; [reflexivity |].
  apply Forall_cons in H as [Hc H].
  destruct (Ascii.eqb_spec c sep); [contradiction |].
  now rewrite (IH H).
Qed.

Lemma split_at_first (sep : ascii) (before after : string) :
  Forall (λ c, c ≠ sep) (list_ascii_of_string before) →
  split sep (before +:+ String sep after) = before :: split sep after.
Proof.
  induction before as [| c before IH]; intros H.
  - change (EmptyString +:+ String sep after) with (String sep after).
    cbn [split]. now rewrite Ascii.eqb_refl.
  - change (String c before +:+ String sep after)
      with (String c (before +:+ String sep after)).
    cbn [list_ascii_of_string] in H. apply Forall_cons in H as [Hc H].
    cbn [split]. destruct (Ascii.eqb_spec c sep); [contradiction |].
    now rewrite (IH H).
Qed.

(** X6.  The image bytes of the payload are what follows the first comma of
    the seed image: for the data URL [generateStoryboardImage] builds from
    inline data without a comma (base64 has none) they are that data.  For a
    seed without any comma the payload has an image whose bytes are
    [undefined]; without a seed, or with an empty one, it has no image. *)
Theorem payload_image (I : Interface) (prompt : string) :
  image (payload I prompt None) = None ∧
  image (payload I prompt (Some EmptyString)) = None ∧
  (∀ data,
     Forall (λ c, c ≠ ","%char) (list_ascii_of_string data) →
     image (payload I prompt (Some ("data:image/png;base64," +:+ data)))
     = Some (mkImage (Some data) "image/png")) ∧
  (∀ c rest,
     Forall (λ c, c ≠ ","%char) (list_ascii_of_string (String c rest)) →
     image (payload I prompt (Some (String c rest)))
     = Some (mkImage None "image/png")).
Proof.
  split; [reflexivity |]. split; [reflexivity |]. split.
  - intros data Hdata. unfold payload. cbn [image].
    change ("data:image/png;base64," +:+ data)
      with ("data:image/png;base64" +:+ String "," data).
    change (truthy (Some ("data:image/png;base64" +:+ String "," data))) with true.
    cbv iota.
    change (or_else (Some ("data:image/png;base64" +:+ String "," data)) EmptyString)
      with ("data:image/png;base64" +:+ String "," data).
    rewrite split_at_first, (split_without _ data Hdata); [reflexivity |].
    cbn. repeat (apply Forall_cons; split; [discriminate |]). apply Forall_nil_2.
  - intros c rest H. unfold payload. cbn [image truthy or_else].
    now rewrite (split_without _ _ H).
Qed.

(** The loop leaves at the first operation that is done. *)
Lemma poll_first_done (I : Interface) (j : nat) :
  ∀ (fuel k : nat) (operation final : Operation),
    operation_after I k operation j = Some final →
    done final = true →
    (∀ i, (i < j)%nat →
       ∃ op, operation_after I k operation i = Some op ∧ done op = false) →
    (j ≤ fuel)%nat →
    ∃ calls,
      poll I fuel k operation = Some (calls, Fulfilled final) ∧
      polls calls = j ∧ waits calls = replicate j 10000 ∧ fetches calls = [].
Proof.
  induction j as [| j IH]; intros fuel k operation final Hafter Hdone Hbefore Hfuel.
  - injection Hafter as ->. exists [].
    destruct fuel; cbn [poll]; rewrite Hdone; repeat split.
  - destruct (Hbefore 0%nat ltac:(lia)) as (op0 & H0 & Hnot). injection H0 as <-.
    destruct fuel as [| fuel]; [lia |].
    cbn [poll operation_after] in *. rewrite Hnot.
    destruct (getVideosOperation I k operation) as [operation' | e |] eqn:Hget;
      try discriminate.
    destruct (IH fuel (Datatypes.S k) operation' final Hafter Hdone) as (calls & Hpoll & Hn & Hw & Hf).
    + intros i Hi. destruct (Hbefore (Datatypes.S i) ltac:(lia)) as (op & Hop & Hnd).
      cbn [operation_after] in Hop. rewrite Hget in Hop. eauto.
    + lia.
    + rewrite Hpoll. eexists. split; [reflexivity |].
      unfold polls, waits, fetches in *. cbn. rewrite Hn, Hw, Hf. repeat split.
Qed.

(** The loop has no way out but a done operation, a rejection or a hang. *)
Lemma poll_never_done (I : Interface) (fuel : nat) :
  ∀ (k : nat) (operation : Operation),
    (∀ i, ∃ op, operation_after I k operation i = Some op ∧ done op = false) →
    poll I fuel k operation = None.
Proof.
  induction fuel as [| fuel IH]; intros k operation Hnever.
  - destruct (Hnever 0%nat) as (op & [= <-] & Hnot). cbn. now rewrite Hnot.
  - destruct (Hnever 0%nat) as (op & [= <-] & Hnot). cbn [poll]. rewrite Hnot.
    destruct (Hnever 1%nat) as (op1 & H1 & _). cbn [operation_after] in H1.
    destruct (getVideosOperation I k operation) as [operation' | e |] eqn:Hget;
      try discriminate.
    rewrite (IH (Datatypes.S k) operation'); [reflexivity |].
    intros i. destruct (Hnever (Datatypes.S i)) as (op & Hop & Hnd).
    cbn [operation_after] in Hop. rewrite Hget in Hop. eauto.
Qed.

(** X7.  When the operation is first done after [j] polls, the adapter
    returns after exactly [j] waits of 10000 ms and [j] polls, with any fuel
    of [j] or more.  With a download link it then fetches the link with
    "&key=" and the API key appended, once, and settles as the fetch does;
    without one it throws "Video generation failed: no download link" and
    fetches nothing. *)
Theorem generateSceneVideo_polls (I : Interface) (fuel j : nat) (prompt : string)
    (initialImageBase64 : option string) (operation final : Operation) :
  generateVideos I (payload I prompt initialImageBase64) = Fulfilled operation →
  operation_after I 0 operation j = Some final →
  done final = true →
  (∀ i, (i < j)%nat →
     ∃ op, operation_after I 0 operation i = Some op ∧ done op = false) →
  (j ≤ fuel)%nat →
  ∃ calls out,
    generateSceneVideo I fuel prompt initialImageBase64 = Some (calls, out) ∧
    head calls = Some (generateVideos_call (payload I prompt initialImageBase64)) ∧
    polls calls = j ∧ waits calls = replicate j 10000 ∧
    match uri final with
    | Some (String c link) =>
        fetches calls = [String c link +:+ "&key=" +:+ API_KEY I] ∧
        last calls = Some (fetch_call (String c link +:+ "&key=" +:+ API_KEY I)) ∧
        out = fetch_blob I (String c link +:+ "&key=" +:+ API_KEY I)
    | _ =>
        fetches calls = [] ∧
        out = Rejected (GenericError "Video generation failed: no download link")
    end.
Proof.
  intros Hgen Hafter Hdone Hbefore Hfuel.
  destruct (poll_first_done I j fuel 0 operation final Hafter Hdone Hbefore Hfuel)
    as (calls & Hpoll & Hn & Hw & Hf).
  unfold generateSceneVideo. rewrite Hgen, Hpoll.
  assert (Hpolls : ∀ l, polls (l ++ calls) = (polls l + j)%nat).
  { intros l. unfold polls in *. now rewrite List.filter_app, length_app, Hn. }
  destruct (uri final) as [[| c link] |] eqn:Huri; cbn [truthy negb or_else].
  - do 2 eexists. split; [reflexivity |]. split; [reflexivity |].
    split; [exact (Hpolls [generateVideos_call _]) |].
    split; [exact Hw |]. split; [exact Hf | reflexivity].
  - exists ([generateVideos_call (payload I prompt initialImageBase64)] ++ calls
            ++ [fetch_call (String c link +:+ "&key=" +:+ API_KEY I)]),
           (fetch_blob I (String c link +:+ "&key=" +:+ API_KEY I)).
    split; [reflexivity |]. split; [reflexivity |].
    split.
    { unfold polls in *. rewrite !List.filter_app, !length_app, Hn. cbn. lia. }
    split.
    { unfold waits in *. rewrite !omap_app, Hw. cbn. now rewrite app_nil_r. }
    split.
    { unfold fetches in *. rewrite !omap_app, Hf. reflexivity. }
    split; [| reflexivity].
    rewrite app_assoc. apply last_snoc.
  - do 2 eexists. split; [reflexivity |]. split; [reflexivity |].
    split; [exact (Hpolls [generateVideos_call _]) |].
    split; [exact Hw |]. split; [exact Hf | reflexivity].
Qed.

Lemma generateSceneVideo_polls_witness :
  let I := Sample.video_ready_at_3 in
  let seed := Some "data:image/png;base64,AAAA" in
  generateVideos I (payload I "Alice waves" seed) = Fulfilled (mkOperation false None) ∧
  operation_after I 0 (mkOperation false None) 3
  = Some (mkOperation true (Some "https://videos.example/v1?alt=media")) ∧
  (∀ i, (i < 3)%nat →
     ∃ op, operation_after I 0 (mkOperation false None) i = Some op ∧ done op = false) ∧
  ∃ calls,
    generateSceneVideo I 5 "Alice waves" seed
    = Some (calls, Fulfilled "blob:https://videos.example/v1?alt=media&key=KEY") ∧
    polls calls = 3%nat.
Proof.
  intros I seed.
  assert (Hbefore : ∀ i, (i < 3)%nat →
            ∃ op, operation_after I 0 (mkOperation false None) i = Some op ∧ done op = false).
  { intros i Hi.
    destruct i as [| [| [| i]]]; [eexists; split; reflexivity .. | lia]. }
  split; [reflexivity |]. split; [reflexivity |]. split; [exact Hbefore |].
  destruct (generateSceneVideo_polls I 5 3 "Alice waves" seed (mkOperation false None)
              (mkOperation true (Some "https://videos.example/v1?alt=media"))
              eq_refl eq_refl eq_refl Hbefore ltac:(lia))
    as (calls & out & Hrun & _ & Hn & _ & Hlink).
  cbn [uri] in Hlink. destruct Hlink as (_ & _ & ->).
  exists calls. split; [exact Hrun | exact Hn].
Defined.

(** X8.  The loop has no timeout: while the provider keeps answering with
    an operation that is not done, the adapter keeps polling, and no bound
    on the iterations lets it return. *)
Theorem generateSceneVideo_never_gives_up (I : Interface) (prompt : string)
    (initialImageBase64 : option string) (operation : Operation) :
  generateVideos I (payload I prompt initialImageBase64) = Fulfilled operation →
  (∀ i, ∃ op, operation_after I 0 operation i = Some op ∧ done op = false) →
  ∀ fuel, generateSceneVideo I fuel prompt initialImageBase64 = None.
Proof.
  intros Hgen Hnever fuel. unfold generateSceneVideo.
  now rewrite Hgen, (poll_never_done I fuel 0 operation Hnever).
Qed.

Lemma generateSceneVideo_never_gives_up_witness :
  let I := Sample.video_never_ready in
  generateVideos I (payload I "Alice waves" None) = Fulfilled (mkOperation false None) ∧
  (∀ i, ∃ op, operation_after I 0 (mkOperation false None) i = Some op ∧ done op = false) ∧
  ∀ fuel, generateSceneVideo I fuel "Alice waves" None = None.
Proof.
  intros I.
  assert (Hnever : ∀ i k, operation_after I k (mkOperation false None) i
                          = Some (mkOperation false None)).
  { induction i as [| i IH]; intros k; [reflexivity | exact (IH (Datatypes.S k))]. }
  assert (Hpre : ∀ i, ∃ op, operation_after I 0 (mkOperation false None) i = Some op
                            ∧ done op = false).
  { intros i. exists (mkOperation false None). split; [apply Hnever | reflexivity]. }
  split; [reflexivity |]. split; [exact Hpre |].
  exact (generateSceneVideo_never_gives_up I "Alice waves" None (mkOperation false None)
           eq_refl Hpre).
Defined.

End VideoProperties.

(** ** The controller, further *)

Module ControllerProperties.

Import JS Async Trace geminiService App AppSpec.

Lemma trimStart_blank (s : string) : blank s → trimStart s = EmptyString.
Proof.
  unfold blank. induction s as [| c s IH]; cbn [list_ascii_of_string trimStart];
    intros H; [reflexivity |].
  apply Forall_cons in H as [Hc H]. rewrite Hc. now apply IH.
Qed.

Lemma trimStart_not_blank (s : string) :
  ¬ blank s → ∃ c rest, trimStart s = String c rest ∧ is_space c = false.
Proof.
  unfold blank. induction s as [| c s IH]; cbn [list_ascii_of_string trimStart]; intros H.
  - destruct H. apply Forall_nil_2.
  - destruct (is_space c) eqn:Hc; [| eauto].
    apply IH. intros Hs. apply H. now apply Forall_cons.
Qed.

Lemma trimEnd_keeps (c : ascii) (rest : string) :
  is_space c = false → trimEnd (String c rest) ≠ EmptyString.
Proof.
  intros Hc. cbn [trimEnd]. destruct (trimEnd rest); [rewrite Hc |]; discriminate.
Qed.

(** [!s.trim()] holds exactly of the strings made of white space only. *)
Lemma trim_falsy_blank (s : string) :
  truthy (Some (trim s)) = false ↔ blank s.
Proof.
  unfold trim. split.
  - intros H.
    destruct (decide (Forall (λ c, is_space c = true) (list_ascii_of_string s)))
      as [Hb | Hn]; [exact Hb |].
    destruct (trimStart_not_blank s Hn) as (c & rest & Hs & Hc).
    rewrite Hs in H. pose proof (trimEnd_keeps c rest Hc) as Hk.
    destruct (trimEnd (String c rest)); [contradiction | discriminate].
  - intros Hb. now rewrite (trimStart_blank s Hb).
Qed.

(** X9.  A script of white space only (or an empty one) is not submitted:
    [handleScriptSubmit] sends nothing and changes nothing.  White space is
    what [trim] strips: TAB, LF, VT, FF, CR, SPACE and NO-BREAK SPACE. *)
Theorem handleScriptSubmit_blank (P : Provider) (r : Run State) :
  blank (scriptInput (state r)) →
  handleScriptSubmit P r = (r, [], Fulfilled tt).
Proof.
  intros Hb. apply trim_falsy_blank in Hb. destruct r as [st n d].
  unfold handleScriptSubmit, bind, read. cbn in *. rewrite Hb. reflexivity.
Qed.

Lemma handleScriptSubmit_blank_witness :
  let r := Sample.app None
             (String " " (String (ascii_of_nat 10) (String (ascii_of_nat 9)
                (String (ascii_of_nat 160) EmptyString)))) in
  blank (scriptInput (state r)) ∧
  handleScriptSubmit (Sample.provider Pending (λ _, Pending) Pending Pending Pending true) r
  = (r, [], Fulfilled tt).
Proof.
  intros r.
  assert (Hb : blank (scriptInput (state r))).
  { unfold blank. cbn. repeat (apply Forall_cons; split; [reflexivity |]).
    apply Forall_nil_2. }
  split; [exact Hb | exact (handleScriptSubmit_blank _ r Hb)].
Defined.

(** X10.  When the analysis fails, at the request or at [JSON.parse],
    [handleScriptSubmit] keeps the project it had, draws no identifier, sets
    the error to the message of the failure, or to "Failed to analyze
    script" when the message is empty, and clears the loading flag. *)
Theorem handleScriptSubmit_failure (P : Provider) (r : Run State) (e : Error) :
  ¬ blank (scriptInput (state r)) →
  (generateContent_text P (issued r) (scriptInput (state r)) = Rejected e ∨
   ∃ t, generateContent_text P (issued r) (scriptInput (state r)) = Fulfilled t ∧
        JSON_parse P (or_else t "[]") = inl e) →
  let '(r', tr, out) := handleScriptSubmit P r in
  out = Fulfilled tt ∧
  project (state r') = project (state r) ∧
  error (state r') = Some (match message e with
                           | EmptyString => "Failed to analyze script"
                           | m => m
                           end) ∧
  loading (state r') = None ∧
  hasApiKey (state r') = hasApiKey (state r) ∧
  drawn r' = drawn r ∧
  requests tr = [analyzeScript_request (scriptInput (state r))] ∧
  commits tr = [].
Proof.
  intros Hnb Hfail. destruct r as [st n d]. cbn in *.
  assert (Hin : truthy (Some (trim (scriptInput st))) = true).
  { destruct (truthy (Some (trim (scriptInput st)))) eqn:E; [reflexivity |].
    apply trim_falsy_blank in E. contradiction. }
  unfold handleScriptSubmit, bind at 1. unfold read. cbn.
  cbn in Hin. rewrite Hin. cbn.
  unfold bind, finally, try_catch, analyzeScript, bind, start, await, update. cbn.
  destruct Hfail as [Hrej | (t & Hful & Hparse)].
  - rewrite Hrej. cbn. destruct (message e); repeat split.
  - rewrite Hful. cbn. rewrite Hparse. cbn. destruct (message e); repeat split.
Qed.

Lemma handleScriptSubmit_failure_witness :
  let P := Sample.provider (Rejected (GenericError "503 Service Unavailable"))
             (λ _, Pending) Pending Pending Pending true in
  let r := Sample.app (Some Sample.project) "INT. ROOM - DAY" in
  ¬ blank (scriptInput (state r)) ∧
  generateContent_text P (issued r) (scriptInput (state r))
  = Rejected (GenericError "503 Service Unavailable") ∧
  project (state (fst (fst (handleScriptSubmit P r)))) = Some Sample.project ∧
  error (state (fst (fst (handleScriptSubmit P r)))) = Some "503 Service Unavailable".
Proof.
  intros P r.
  assert (Hnb : ¬ blank (scriptInput (state r))).
  { intros Hb. apply trim_falsy_blank in Hb. discriminate Hb. }
  split; [exact Hnb |]. split; [reflexivity |].
  pose proof (handleScriptSubmit_failure P r (GenericError "503 Service Unavailable")
                Hnb (or_introl eq_refl)) as H.
  destruct (handleScriptSubmit P r) as [[r' tr] out].
  destruct H as (_ & Hp & He & _). split; [exact Hp | exact He].
Defined.

(** X11.  A response without text, or with an empty text, is not an error:
    [handleScriptSubmit] replaces the project by one that has the submitted
    script and no scene, and sets no error. *)
Theorem handleScriptSubmit_empty_response (P : Provider) (r : Run State)
    (t : option string) :
  ¬ blank (scriptInput (state r)) →
  generateContent_text P (issued r) (scriptInput (state r)) = Fulfilled t →
  truthy t = false →
  JSON_parse P "[]" = inr [] →
  let '(r', tr, out) := handleScriptSubmit P r in
  out = Fulfilled tt ∧
  project (state r') = Some (mkProject "My New Animation" (scriptInput (state r)) []) ∧
  error (state r') = error (state r) ∧
  loading (state r') = None ∧
  drawn r' = drawn r.
Proof.
  intros Hnb Hful Ht Hparse. destruct r as [st n d]. cbn in *.
  assert (Hin : truthy (Some (trim (scriptInput st))) = true).
  { destruct (truthy (Some (trim (scriptInput st)))) eqn:E; [reflexivity |].
    apply trim_falsy_blank in E. contradiction. }
  assert (Hor : or_else t "[]" = "[]") by (destruct t as [[|] |]; [| discriminate |]; reflexivity).
  unfold handleScriptSubmit, bind at 1. unfold read. cbn.
  cbn in Hin. rewrite Hin. cbn.
  unfold bind, finally, try_catch, analyzeScript, bind, start, await, update. cbn.
  rewrite Hful. cbn. rewrite Hor, Hparse. cbn. repeat split.
Qed.

Lemma handleScriptSubmit_empty_response_witness :
  let P := Sample.provider (Fulfilled None) (λ _, Pending) Pending Pending Pending true in
  let r := Sample.app (Some Sample.project) "INT. ROOM - DAY" in
  ¬ blank (scriptInput (state r)) ∧
  generateContent_text P (issued r) (scriptInput (state r)) = Fulfilled None ∧
  JSON_parse P "[]" = inr [] ∧
  project (state (fst (fst (handleScriptSubmit P r))))
  = Some (mkProject "My New Animation" "INT. ROOM - DAY" []).
Proof.
  intros P r.
  assert (Hnb : ¬ blank (scriptInput (state r))).
  { intros Hb. apply trim_falsy_blank in Hb. discriminate Hb. }
  split; [exact Hnb |]. split; [reflexivity |]. split; [reflexivity |].
  pose proof (handleScriptSubmit_empty_response P r None Hnb eq_refl eq_refl eq_refl) as H.
  destruct (handleScriptSubmit P r) as [[r' tr] out].
  destruct H as (_ & Hp & _). exact Hp.
Defined.

(** *** Regenerating one storyboard *)

(** X12.  [handleGenerateStoryboard] on a scene of the project sends one
    image request, with the scene's prompt (its description when the prompt
    is absent or empty) and the selected size.  When an image comes back,
    every scene with that identifier gets the new data URL, whether or not
    it had an image, and is otherwise the same; every other scene is the
    same.  When the request fails or the response has no image, the project
    is the one it was and the error is set.  Either way the loading flag is
    cleared. *)
Theorem handleGenerateStoryboard_scene (P : Provider) (sceneId : string)
    (r : Run State) (proj : Project) (scene : Scene) :
  project (state r) = Some proj →
  find (λ s, String.eqb (id s) sceneId) (scenes proj) = Some scene →
  let prompt := or_else (storyboardPrompt scene) (description scene) in
  let response := generateContent_image P (issued r) prompt (imageSize (state r)) in
  let '(r', tr, out) := handleGenerateStoryboard P sceneId r in
  requests tr = [generateStoryboardImage_request prompt (imageSize (state r))] ∧
  match response with
  | Fulfilled (Some data) =>
      out = Fulfilled tt ∧ loading (state r') = None ∧ error (state r') = error (state r) ∧
      ∃ proj',
        project (state r') = Some proj' ∧ commits tr = [Some proj'] ∧
        title proj' = title proj ∧ script proj' = script proj ∧
        length (scenes proj') = length (scenes proj) ∧
        ∀ i s, scenes proj !! i = Some s →
          ∃ s', scenes proj' !! i = Some s' ∧
            (id s ≠ sceneId → s' = s) ∧
            (id s = sceneId →
               storyboardImageUrl s' = Some ("data:image/png;base64," +:+ data) ∧
               same_but_image s s')
  | Fulfilled None =>
      out = Fulfilled tt ∧ loading (state r') = None ∧ commits tr = [] ∧
      project (state r') = project (state r) ∧
      error (state r') = Some "No image data returned from Gemini"
  | Rejected e =>
      out = Fulfilled tt ∧ loading (state r') = None ∧ commits tr = [] ∧
      project (state r') = project (state r) ∧
      error (state r') = Some (match message e with
                               | EmptyString => "Storyboard generation failed"
                               | m => m
                               end)
  | Pending =>
      out = Pending ∧ is_Some (loading (state r')) ∧ commits tr = [] ∧
      project (state r') = project (state r)
  end.
Proof.
  intros Hp Hf. destruct r as [st n d]. cbn in Hp. cbn [state issued].
  unfold handleGenerateStoryboard, bind at 1. unfold read. cbn [state].
  rewrite Hp, Hf.
  unfold bind, finally, try_catch, generateStoryboardImage, bind, start, await, update, ret.
  cbn [state issued drawn apply imageSize].
  destruct (generateContent_image P n _ (imageSize st)) as [[data |] | e |]; cbn.
  - split; [reflexivity |]. repeat split.
    eexists. split; [reflexivity |]. split; [reflexivity |]. cbn.
    repeat split; [apply length_fmap |].
    intros i s Hs. rewrite list_lookup_fmap, Hs. cbn.
    eexists. split; [reflexivity |].
    destruct (String.eqb_spec (id s) sceneId); split; intros; try contradiction;
      try reflexivity.
    repeat split.
  - repeat split. exact Hp.
  - destruct (message e); repeat split; exact Hp.
  - repeat split; [eauto | exact Hp].
Qed.

Lemma handleGenerateStoryboard_scene_witness :
  let P := Sample.provider Pending (λ _, Fulfilled (Some "CCCC")) Pending Pending Pending true in
  let r := Sample.app (Some Sample.project) EmptyString in
  project (state r) = Some Sample.project ∧
  find (λ s, String.eqb (id s) "uuid-0") (scenes Sample.project) = Some Sample.scene1 ∧
  requests (snd (fst (handleGenerateStoryboard P "uuid-0" r)))
  = [generateStoryboardImage_request "A room by day." Size1K] ∧
  (storyboardImageUrl <$>
     from_option scenes [] (project (state (fst (fst (handleGenerateStoryboard P "uuid-0" r))))))
  = [Some "data:image/png;base64,CCCC"; None; None].
Proof.
  intros P r. split; [reflexivity |]. split; [reflexivity |].
  pose proof (handleGenerateStoryboard_scene P "uuid-0" r Sample.project Sample.scene1
                eq_refl eq_refl) as H.
  cbv zeta in H.
  destruct (handleGenerateStoryboard P "uuid-0" r) as [[r' tr] out] eqn:E.
  destruct H as (Hreq & _). split; [exact Hreq |].
  vm_compute in E. injection E as <- _ _. reflexivity.
Defined.

(** X13.  [handleGenerateStoryboard] for an identifier that no scene has
    sends nothing and changes neither the project nor the error, but it
    does raise the loading flag and clear it again. *)
Theorem handleGenerateStoryboard_unknown (P : Provider) (sceneId : string)
    (r : Run State) (proj : Project) :
  project (state r) = Some proj →
  (∀ s, s ∈ scenes proj → id s ≠ sceneId) →
  let '(r', tr, out) := handleGenerateStoryboard P sceneId r in
  tr = [Updated (setLoading (Some "Generating sketch storyboard..."));
        Updated (setLoading None)] ∧
  out = Fulfilled tt ∧ issued r' = issued r ∧
  project (state r') = project (state r) ∧ error (state r') = error (state r) ∧
  loading (state r') = None.
Proof.
  intros Hp Hno. destruct r as [st n d]. cbn in Hp. cbn [state issued].
  assert (Hf : find (λ s, String.eqb (id s) sceneId) (scenes proj) = None).
  { destruct (find _ (scenes proj)) as [s |] eqn:E; [| reflexivity].
    apply find_some in E as [Hin Hid]. apply String.eqb_eq in Hid.
    apply list_elem_of_In in Hin. destruct (Hno s Hin Hid). }
  unfold handleGenerateStoryboard, bind at 1. unfold read. cbn [state].
  rewrite Hp, Hf. cbn. repeat split. exact Hp.
Qed.

Lemma handleGenerateStoryboard_unknown_witness :
  let P := Sample.provider Pending (λ _, Pending) Pending Pending Pending true in
  let r := Sample.app (Some Sample.project) EmptyString in
  project (state r) = Some Sample.project ∧
  (∀ s, s ∈ scenes Sample.project → id s ≠ "uuid-9") ∧
  handleGenerateStoryboard P "uuid-9" r
  = (r, [Updated (setLoading (Some "Generating sketch storyboard..."));
         Updated (setLoading None)], Fulfilled tt).
Proof.
  intros P r.
  assert (Hno : ∀ s, s ∈ scenes Sample.project → id s ≠ "uuid-9").
  { intros s Hs. cbn in Hs. rewrite !elem_of_cons, elem_of_nil in Hs.
    destruct Hs as [-> | [-> | [-> | []]]]; discriminate. }
  split; [reflexivity |]. split; [exact Hno |].
  pose proof (handleGenerateStoryboard_unknown P "uuid-9" r Sample.project eq_refl Hno) as H.
  destruct (handleGenerateStoryboard P "uuid-9" r) as [[r' tr] out] eqn:E.
  destruct H as (-> & -> & _). vm_compute in E. injection E as <-. reflexivity.
Defined.

(** *** Editing, approving, and how they compose *)

Lemma find_fmap_id (sceneId : string) (f : Scene → Scene) (l : list Scene) :
  (∀ s, id (f s) = id s) →
  find (λ s, String.eqb (id s) sceneId) (f <$> l)
  = f <$> find (λ s, String.eqb (id s) sceneId) l.
Proof.
  intros Hid. induction l as [| s l IH]; [reflexivity |].
  cbn [fmap list_fmap find]. rewrite Hid.
  destruct (String.eqb (id s) sceneId); [reflexivity | exact IH].
Qed.

(** X14.  An edited prompt is the one the next image request carries:
    after [handleUpdatePrompt] with a text that is not empty,
    [handleGenerateStoryboard] for that scene sends that text; after an edit
    to the empty text it sends the scene's description. *)
Theorem edited_prompt_is_sent (P : Provider) (sceneId newPrompt : string)
    (r : Run State) (proj : Project) (scene : Scene) :
  project (state r) = Some proj →
  find (λ s, String.eqb (id s) sceneId) (scenes proj) = Some scene →
  let '(r1, _, _) := handleUpdatePrompt sceneId newPrompt r in
  let '(_, tr, _) := handleGenerateStoryboard P sceneId r1 in
  requests tr
  = [generateStoryboardImage_request
       (match newPrompt with
        | EmptyString => description scene
        | text => text
        end)
       (imageSize (state r))].
Proof.
  intros Hp Hf. destruct r as [st n d]. cbn in Hp. cbn [state].
  assert (Hid : String.eqb (id scene) sceneId = true)
    by (apply find_some in Hf as [_ H]; exact H).
  unfold handleUpdatePrompt, bind at 1. unfold read, update. cbn [state issued drawn].
  rewrite Hp. cbn [apply].
  unfold handleGenerateStoryboard, bind at 1. unfold read. cbn [state project scenes with_scenes].
  rewrite find_fmap_id, Hf
    by (intros s; destruct (String.eqb (id s) sceneId); reflexivity).
  cbn [fmap option_fmap option_map]. rewrite Hid.
  unfold bind, finally, try_catch, generateStoryboardImage, bind, start, await, update, ret.
  cbn [state issued drawn apply imageSize with_storyboardPrompt storyboardPrompt
       description or_else].
  destruct (generateContent_image P n _ (imageSize st)) as [[data |] | e |];
    destruct newPrompt; reflexivity.
Qed.

Lemma edited_prompt_is_sent_witness :
  let P := Sample.provider Pending (λ _, Pending) Pending Pending Pending true in
  let r := Sample.app (Some Sample.project) EmptyString in
  project (state r) = Some Sample.project ∧
  find (λ s, String.eqb (id s) "uuid-1") (scenes Sample.project) = Some Sample.scene2 ∧
  requests (snd (fst (handleGenerateStoryboard P "uuid-1"
                        (fst (fst (handleUpdatePrompt "uuid-1" "Alice waves, in charcoal." r))))))
  = [generateStoryboardImage_request "Alice waves, in charcoal." Size1K].
Proof.
  intros P r. split; [reflexivity |]. split; [reflexivity |].
  pose proof (edited_prompt_is_sent P "uuid-1" "Alice waves, in charcoal." r
                Sample.project Sample.scene2 eq_refl eq_refl) as H.
  destruct (handleUpdatePrompt "uuid-1" "Alice waves, in charcoal." r) as [[r1 t1] o1].
  cbn [fst snd].
  destruct (handleGenerateStoryboard P "uuid-1" r1) as [[r2 t2] o2].
  exact H.
Defined.

(** X15.  The last edit of a prompt wins: two edits of the same scene leave
    the state that the second alone leaves (and an edit repeated is the
    edit). *)
Theorem handleUpdatePrompt_last_wins (sceneId first second : string) (r : Run State) :
  let '(r1, _, _) := handleUpdatePrompt sceneId first r in
  let '(r2, _, _) := handleUpdatePrompt sceneId second r1 in
  let '(r2', _, _) := handleUpdatePrompt sceneId second r in
  r2 = r2'.
Proof.
  destruct r as [st n d].
  unfold handleUpdatePrompt, bind, read, update, ret. cbn.
  destruct (project st) as [proj |] eqn:Hp; cbn; [| now rewrite Hp].
  unfold with_scenes. cbn [title script scenes].
  do 4 f_equal. rewrite <- list_fmap_compose.
  apply list_fmap_ext. intros i s _. cbn.
  destruct (String.eqb (id s) sceneId) eqn:E; cbn; now rewrite E.
Qed.

(** X16.  Approving a scene and editing a prompt commute, for the same
    scene or for two scenes: either order leaves the same state. *)
Theorem approve_edit_commute (approved edited newPrompt : string) (r : Run State) :
  let '(r1, _, _) := handleApproveScene approved r in
  let '(r2, _, _) := handleUpdatePrompt edited newPrompt r1 in
  let '(r1', _, _) := handleUpdatePrompt edited newPrompt r in
  let '(r2', _, _) := handleApproveScene approved r1' in
  r2 = r2'.
Proof.
  destruct r as [st n d].
  unfold handleApproveScene, handleUpdatePrompt, bind, read, update, ret. cbn.
  destruct (project st) as [proj |] eqn:Hp; cbn; [| now rewrite Hp].
  unfold with_scenes. cbn [title script scenes].
  do 4 f_equal. rewrite <- !list_fmap_compose.
  apply list_fmap_ext. intros i s _. cbn.
  destruct (String.eqb (id s) approved) eqn:Ea, (String.eqb (id s) edited) eqn:Ee;
    cbn; rewrite ?Ea, ?Ee; reflexivity.
Qed.

(** X17.  [handleApproveScene] changes nothing of a scene but its approval
    flag: identifier, order, texts, prompt and the three media references
    of every scene are the ones it had, and so are the title and script. *)
Theorem handleApproveScene_frame (sceneId : string) (r : Run State) (proj : Project) :
  project (state r) = Some proj →
  let '(r', tr, out) := handleApproveScene sceneId r in
  ∃ proj',
    project (state r') = Some proj' ∧ requests tr = [] ∧
    title proj' = title proj ∧ script proj' = script proj ∧
    loading (state r') = loading (state r) ∧ error (state r') = error (state r) ∧
    hasApiKey (state r') = hasApiKey (state r) ∧
    ∀ i s, scenes proj !! i = Some s →
      ∃ s', scenes proj' !! i = Some s' ∧ same_but_approval s s'.
Proof.
  intros Hp. destruct r as [st n d]. cbn in Hp.
  unfold handleApproveScene, bind, read, update, ret. cbn. rewrite Hp. cbn.
  eexists. split; [reflexivity |]. repeat split.
  intros i s Hs. cbn. rewrite list_lookup_fmap, Hs. cbn.
  eexists. split; [reflexivity |].
  destruct (String.eqb (id s) sceneId); repeat split.
Qed.

Lemma handleApproveScene_frame_witness :
  let r := Sample.app (Some Sample.project) EmptyString in
  project (state r) = Some Sample.project ∧
  (storyboardImageUrl <$>
     from_option scenes [] (project (state (fst (fst (handleApproveScene "uuid-0" r))))))
  = storyboardImageUrl <$> scenes Sample.project ∧
  ∃ proj', project (state (fst (fst (handleApproveScene "uuid-0" r)))) = Some proj' ∧
           title proj' = title Sample.project.
Proof.
  intros r. split; [reflexivity |]. split; [reflexivity |].
  pose proof (handleApproveScene_frame "uuid-0" r Sample.project eq_refl) as H.
  destruct (handleApproveScene "uuid-0" r) as [[r' tr] out].
  destruct H as (proj' & Hp & _ & Ht & _). exists proj'. split; [exact Hp | exact Ht].
Defined.

(** *** Bulk generation, further *)

Lemma assign_frame (l : list Scene) :
  ∀ urls i s, l !! i = Some s →
    ∃ s', assign urls l !! i = Some s' ∧ same_but_image s s' ∧
          (needs_image s = false → s' = s) ∧
          (s' = s ∨ ∃ url, url ∈ urls ∧ storyboardImageUrl s' = Some url).
Proof.
  induction l as [| s0 l IH]; intros urls i s Hi; [discriminate |].
  cbn [assign]. destruct (needs_image s0) eqn:Hn0.
  - destruct urls as [| u urls].
    + exists s. rewrite Hi. repeat split; auto.
    + destruct i as [| i].
      * injection Hi as <-. eexists. split; [reflexivity |].
        split; [repeat split |]. split; [congruence |].
        right. exists u. split; [apply elem_of_cons; now left | reflexivity].
      * change (l !! i = Some s) in Hi.
        destruct (IH urls i s Hi) as (s' & Hs' & Hsame & Hkeep & Hurl).
        exists s'. split; [exact Hs' |]. split; [exact Hsame |]. split; [exact Hkeep |].
        destruct Hurl as [-> | (url & Hin & Himg)]; [now left |].
        right. exists url. split; [apply elem_of_cons; now right | exact Himg].
  - destruct i as [| i].
    + injection Hi as <-. exists s0. repeat split; auto.
    + change (l !! i = Some s) in Hi. exact (IH urls i s Hi).
Qed.

Lemma assign_none (l : list Scene) : assign [] l = l.
Proof.
  induction l as [| s l IH]; cbn; [reflexivity |].
  destruct (needs_image s); [reflexivity | now rewrite IH].
Qed.

(** The handler around the loop. *)
Lemma handleGenerateAllStoryboards_run (P : Provider) (r : Run State) (proj : Project) :
  project (state r) = Some proj →
  ∃ r' tr out urls,
    handleGenerateAllStoryboards P r = (r', tr, out) ∧
    steps tr = plan (imageSize (state r)) proj [] urls (scenes proj) ∧
    Forall (λ u, truthy (Some u) = true) urls ∧
    project (state r') = Some (with_scenes (assign urls (scenes proj)) proj) ∧
    hasApiKey (state r') = hasApiKey (state r) ∧
    match out with
    | Fulfilled _ =>
        loading (state r') = None ∧
        (length urls = length (List.filter needs_image (scenes proj)) ∧
         error (state r') = error (state r) ∨
         (length urls < length (List.filter needs_image (scenes proj)))%nat ∧
         is_Some (error (state r')))
    | Rejected _ => False
    | Pending => (length urls < length (List.filter needs_image (scenes proj)))%nat
    end.
Proof.
  intros Hp. destruct r as [st n d]. cbn in Hp. cbn [state].
  unfold handleGenerateAllStoryboards, bind at 1. unfold read. cbn [state].
  rewrite Hp. unfold bind at 1. unfold update at 1. cbn [state issued drawn].
  unfold finally, try_catch.
  match goal with
  | |- context [generateAll_loop P ?size _ 0%nat _ ?run] =>
      destruct (AppProperties.generateAll_loop_spec P size (scenes proj) [] run proj Hp eq_refl)
        as (r' & tr & out & urls & Hrun & Hsteps & Hok & Hurls & Hproj & Herr & Hkey & Hout)
  end.
  cbn [length app] in Hrun. cbn [imageSize apply] in *. rewrite Hrun.
  cbn [app] in Hproj.
  destruct out as [[] | e |]; cbn [update state issued drawn apply app].
  - do 3 eexists. exists urls. split; [reflexivity |].
    split; [cbn; rewrite AppProperties.steps_app, Hsteps; cbn; now rewrite app_nil_r |].
    split; [exact Hurls |]. split; [exact Hproj |]. split; [exact Hkey |].
    cbn. split; [reflexivity |]. left. split; [exact Hout | exact Herr].
  - do 3 eexists. exists urls. split; [reflexivity |].
    split; [cbn; rewrite !AppProperties.steps_app, Hsteps; cbn; now rewrite !app_nil_r |].
    split; [exact Hurls |]. split; [exact Hproj |]. split; [exact Hkey |].
    cbn. split; [reflexivity |]. right. split; [exact Hout | eauto].
  - do 3 eexists. exists urls. split; [reflexivity |].
    split; [cbn; now rewrite Hsteps |].
    split; [exact Hurls |]. split; [exact Hproj |]. split; [exact Hkey |]. exact Hout.
Qed.

(** X18.  Bulk generation changes nothing of a scene but its storyboard
    image: at every position the scene keeps its identifier, order, texts,
    prompt, video, audio and approval flag; a scene that had an image keeps
    it, and a changed image is one the provider returned. The project keeps
    its title, script and number of scenes, and the credential flag is not
    touched. *)
Theorem handleGenerateAllStoryboards_frame (P : Provider) (r : Run State) (proj : Project) :
  project (state r) = Some proj →
  let '(r', tr, out) := handleGenerateAllStoryboards P r in
  ∃ proj',
    project (state r') = Some proj' ∧
    title proj' = title proj ∧ script proj' = script proj ∧
    length (scenes proj') = length (scenes proj) ∧
    hasApiKey (state r') = hasApiKey (state r) ∧
    ∀ i s, scenes proj !! i = Some s →
      ∃ s', scenes proj' !! i = Some s' ∧ same_but_image s s' ∧
        (truthy (storyboardImageUrl s) = true → s' = s) ∧
        (s' = s ∨ truthy (storyboardImageUrl s') = true).
Proof.
  intros Hp.
  destruct (handleGenerateAllStoryboards_run P r proj Hp)
    as (r' & tr & out & urls & -> & _ & Hurls & Hproj & Hkey & _).
  eexists. split; [exact Hproj |]. cbn.
  split; [reflexivity |]. split; [reflexivity |].
  split; [apply AppProperties.assign_length |]. split; [exact Hkey |].
  intros i s Hs.
  destruct (assign_frame (scenes proj) urls i s Hs) as (s' & Hs' & Hsame & Hkeep & Hnew).
  exists s'. split; [exact Hs' |]. split; [exact Hsame |]. split.
  - intros Ht. apply Hkeep. unfold needs_image. now rewrite Ht.
  - destruct Hnew as [-> | (url & Hin & Himg)]; [now left | right].
    rewrite Himg. rewrite Forall_forall in Hurls. now apply Hurls.
Qed.

Lemma handleGenerateAllStoryboards_frame_witness :
  let P := Sample.provider Pending Sample.one_image Pending Pending Pending true in
  let r := Sample.app (Some Sample.project) EmptyString in
  project (state r) = Some Sample.project ∧
  ∃ proj',
    project (state (fst (fst (handleGenerateAllStoryboards P r)))) = Some proj' ∧
    title proj' = title Sample.project ∧
    length (scenes proj') = length (scenes Sample.project).
Proof.
  intros P r. split; [reflexivity |].
  pose proof (handleGenerateAllStoryboards_frame P r Sample.project eq_refl) as H.
  destruct (handleGenerateAllStoryboards P r) as [[r' tr] out].
  destruct H as (proj' & Hp & Ht & _ & Hl & _).
  exists proj'. split; [exact Hp |]. split; [exact Ht | exact Hl].
Defined.

Lemma plan_nothing (size : ImageSize) (proj : Project) (todo : list Scene) :
  ∀ done urls, List.filter needs_image todo = [] → plan size proj done urls todo = [].
Proof.
  induction todo as [| s rest IH]; intros done urls H; cbn [plan]; [reflexivity |].
  cbn [List.filter] in H. destruct (needs_image s); [discriminate |]. now apply IH.
Qed.

(** X19.  On a project in which every scene has a storyboard image, bulk
    generation sends nothing and commits nothing: the project and the error
    are the ones there were, and the loading flag ends cleared. *)
Theorem handleGenerateAllStoryboards_complete (P : Provider) (r : Run State)
    (proj : Project) :
  project (state r) = Some proj →
  Forall (λ s, truthy (storyboardImageUrl s) = true) (scenes proj) →
  let '(r', tr, out) := handleGenerateAllStoryboards P r in
  steps tr = [] ∧ requests tr = [] ∧ out = Fulfilled tt ∧
  project (state r') = project (state r) ∧
  error (state r') = error (state r) ∧ loading (state r') = None.
Proof.
  intros Hp Hall.
  assert (Hnone : List.filter needs_image (scenes proj) = []).
  { induction Hall as [| s l Hs _ IH]; [reflexivity |].
    cbn [List.filter]. unfold needs_image at 1. now rewrite Hs. }
  destruct (handleGenerateAllStoryboards_run P r proj Hp)
    as (r' & tr & out & urls & -> & Hsteps & _ & Hproj & _ & Hout).
  rewrite (plan_nothing _ _ _ _ _ Hnone) in Hsteps.
  rewrite Hnone in Hout. cbn [length] in Hout.
  assert (Hurls : urls = []).
  { destruct out as [[] | e |]; [| destruct Hout | lia].
    destruct Hout as (_ & [[Hl _] | [Hl _]]); [| lia].
    now destruct urls. }
  subst urls. rewrite assign_none, AppProperties.with_scenes_id in Hproj.
  split; [exact Hsteps |].
  split; [now rewrite AppProperties.requests_asks, Hsteps |].
  destruct out as [[] | e |]; [| destruct Hout | lia].
  destruct Hout as (Hload & [[_ Herr] | [Hl _]]); [| cbn in Hl; lia].
  split; [reflexivity |]. split; [now rewrite Hproj, Hp |]. split; assumption.
Qed.

Lemma handleGenerateAllStoryboards_complete_witness :
  let P := Sample.provider Pending (λ _, Fulfilled (Some "ZZZZ")) Pending Pending Pending true in
  let r := Sample.app (Some (mkProject "t" "s" [Sample.scene1])) EmptyString in
  project (state r) = Some (mkProject "t" "s" [Sample.scene1]) ∧
  Forall (λ s, truthy (storyboardImageUrl s) = true) [Sample.scene1] ∧
  requests (snd (fst (handleGenerateAllStoryboards P r))) = [].
Proof.
  intros P r.
  assert (Hall : Forall (λ s, truthy (storyboardImageUrl s) = true) [Sample.scene1])
    by (apply Forall_cons; split; [reflexivity | apply Forall_nil_2]).
  split; [reflexivity |]. split; [exact Hall |].
  pose proof (handleGenerateAllStoryboards_complete P r _ eq_refl Hall) as H.
  destruct (handleGenerateAllStoryboards P r) as [[r' tr] out].
  destruct H as (_ & Hreq & _). exact Hreq.
Defined.

Lemma none_lacking (l : list Scene) :
  List.filter needs_image l = [] →
  Forall (λ s, truthy (storyboardImageUrl s) = true) l.
Proof.
  induction l as [| s l IH]; intros H; [apply Forall_nil_2 |].
  cbn [List.filter] in H. destruct (needs_image s) eqn:Hs; [discriminate |].
  apply Forall_cons. split; [| now apply IH].
  unfold needs_image in Hs. now destruct (truthy (storyboardImageUrl s)).
Qed.

(** X20.  Bulk generation that ends without an error has given every scene
    an image, so a second bulk generation, whatever the provider would
    answer, sends nothing and leaves the project as the first left it. *)
Theorem handleGenerateAllStoryboards_twice (P P2 : Provider) (r : Run State)
    (proj : Project) :
  project (state r) = Some proj →
  error (state r) = None →
  let '(r1, t1, o1) := handleGenerateAllStoryboards P r in
  o1 = Fulfilled tt → error (state r1) = None →
  (∃ proj1, project (state r1) = Some proj1 ∧
            Forall (λ s, truthy (storyboardImageUrl s) = true) (scenes proj1)) ∧
  let '(r2, t2, o2) := handleGenerateAllStoryboards P2 r1 in
  requests t2 = [] ∧ project (state r2) = project (state r1) ∧ o2 = Fulfilled tt.
Proof.
  intros Hp Herr0.
  destruct (handleGenerateAllStoryboards_run P r proj Hp)
    as (r1 & t1 & o1 & urls & -> & _ & Hurls & Hproj & _ & Hout).
  intros -> Herr1.
  destruct Hout as (_ & [[Hlen _] | [_ [msg Hmsg]]]); [| congruence].
  assert (Hnone : List.filter needs_image (assign urls (scenes proj)) = []).
  { apply length_zero_iff_nil.
    rewrite AppProperties.assign_remaining by (assumption || lia). lia. }
  assert (Hall : Forall (λ s, truthy (storyboardImageUrl s) = true)
                   (assign urls (scenes proj))).
  { now apply none_lacking. }
  split; [eexists; split; [exact Hproj | exact Hall] |].
  pose proof (handleGenerateAllStoryboards_run P2 r1 _ Hproj)
    as (r2 & t2 & o2 & urls2 & -> & Hsteps & _ & Hproj2 & _ & Hout2).
  cbn [scenes with_scenes] in *.
  rewrite (plan_nothing _ _ _ _ _ Hnone) in Hsteps.
  rewrite Hnone in Hout2. cbn [length] in Hout2.
  destruct o2 as [[] | e |]; [| destruct Hout2 | lia].
  destruct Hout2 as (_ & [[Hl _] | [Hl _]]); [| lia].
  destruct urls2; [| discriminate].
  split; [now rewrite AppProperties.requests_asks, Hsteps |].
  split; [| reflexivity].
  rewrite Hproj2, Hproj, assign_none. reflexivity.
Qed.

Lemma handleGenerateAllStoryboards_twice_witness :
  let P := Sample.provider Pending (λ _, Fulfilled (Some "BBBB")) Pending Pending Pending true in
  let P2 := Sample.provider Pending (λ _, Fulfilled (Some "ZZZZ")) Pending Pending Pending true in
  let r := Sample.app (Some Sample.project) EmptyString in
  project (state r) = Some Sample.project ∧ error (state r) = None ∧
  snd (handleGenerateAllStoryboards P r) = Fulfilled tt ∧
  error (state (fst (fst (handleGenerateAllStoryboards P r)))) = None ∧
  requests (snd (fst (handleGenerateAllStoryboards P2
                        (fst (fst (handleGenerateAllStoryboards P r)))))) = [].
Proof.
  intros P P2 r.
  split; [reflexivity |]. split; [reflexivity |]. split; [reflexivity |].
  split; [reflexivity |].
  pose proof (handleGenerateAllStoryboards_twice P P2 r Sample.project eq_refl eq_refl) as H.
  destruct (handleGenerateAllStoryboards P r) as [[r1 t1] o1] eqn:E1.
  assert (Ho : o1 = Fulfilled tt) by (vm_compute in E1; now injection E1 as _ _ <-).
  assert (He : error (state r1) = None) by (vm_compute in E1; now injection E1 as <- _ _).
  destruct (H Ho He) as (_ & H2). cbn [fst snd].
  destruct (handleGenerateAllStoryboards P2 r1) as [[r2 t2] o2].
  exact (proj1 H2).
Defined.

(** *** Final video, further *)

(** X21.  There is no timeout on final-video production: when neither
    request is rejected and one of them never settles, the handler never
    resumes; the loading flag stays raised, and project and error stay as
    they were. *)
Theorem handleGenerateFinalVideo_pending (P : Provider) (sceneId : string)
    (r : Run State) (proj : Project) (scene : Scene) :
  project (state r) = Some proj →
  find (λ s, String.eqb (id s) sceneId) (scenes proj) = Some scene →
  truthy (storyboardImageUrl scene) = true →
  let video :=
    generateSceneVideo_result P (issued r)
      (or_else (storyboardPrompt scene) (description scene)) (storyboardImageUrl scene) in
  let speech := generateDialogueSpeech_result P (Datatypes.S (issued r)) (dialogue scene) in
  (video = Pending ∧ ∀ e, speech ≠ Rejected e) ∨
  (speech = Pending ∧ ∀ e, video ≠ Rejected e) →
  let '(r', tr, out) := handleGenerateFinalVideo P sceneId r in
  out = Pending ∧ is_Some (loading (state r')) ∧
  project (state r') = project (state r) ∧ error (state r') = error (state r) ∧
  hasApiKey (state r') = hasApiKey (state r) ∧
  length (requests tr) = 2%nat ∧ commits tr = [].
Proof.
  intros Hp Hf Ht. destruct r as [st n d]. cbn in Hp.
  intros video speech Hpend. cbn [issued] in video, speech.
  unfold handleGenerateFinalVideo, bind, read, ret. cbn.
  rewrite Hp. cbn. rewrite Hf, Ht. cbn.
  unfold finally, try_catch, bind, generateSceneVideo, generateDialogueSpeech,
    await_all, await, start, update. cbn.
  fold video speech.
  destruct Hpend as [[Hv Hs] | [Hs Hv]].
  - rewrite Hv. destruct speech as [a | e |]; [| destruct (Hs e eq_refl) |];
      cbn; repeat split; eauto.
  - rewrite Hs. destruct video as [v | e |]; [| destruct (Hv e eq_refl) |];
      cbn; repeat split; eauto.
Qed.

Lemma handleGenerateFinalVideo_pending_witness :
  let P := Sample.provider Pending (λ _, Pending) Pending (Fulfilled "blob:audio")
             Pending true in
  let r := Sample.app (Some Sample.project) EmptyString in
  project (state r) = Some Sample.project ∧
  find (λ s, String.eqb (id s) "uuid-0") (scenes Sample.project) = Some Sample.scene1 ∧
  truthy (storyboardImageUrl Sample.scene1) = true ∧
  snd (handleGenerateFinalVideo P "uuid-0" r) = Pending.
Proof.
  intros P r. split; [reflexivity |]. split; [reflexivity |]. split; [reflexivity |].
  pose proof (handleGenerateFinalVideo_pending P "uuid-0" r Sample.project Sample.scene1
                eq_refl eq_refl eq_refl
                (or_introl (conj eq_refl (λ e (H : Fulfilled "blob:audio" = Rejected e),
                                            eq_ind (Fulfilled "blob:audio")
                                              (λ x, match x with Fulfilled _ => True | _ => False end)
                                              I _ H)))) as H.
  destruct (handleGenerateFinalVideo P "uuid-0" r) as [[r' tr] out].
  exact (proj1 H).
Defined.

End ControllerProperties.

(** ** The chat panel, further *)

Module ChatFurther.

Import JS Async Trace geminiService ChatBot.

Lemma handleSend_run (P : Provider) (ms : list ChatMessage) (typed : string)
    (typing : bool) (n d : nat) :
  let '(r', tr, out) := handleSend P (mkRun (mkState ms typed typing) n d) in
  requests tr = (if truthy (Some (trim typed)) then [sendMessage_request typed] else []) ∧
  out = (if truthy (Some (trim typed))
         then match sendMessage_text P n typed with
              | Pending => Pending
              | _ => Fulfilled tt
              end
         else Fulfilled tt) ∧
  (truthy (Some (trim typed)) = true →
   last (messages (state r'))
   = Some (match sendMessage_text P n typed with
           | Fulfilled t => mkChatMessage model (or_else t "Sorry, I couldn't process that.")
           | Rejected _ => mkChatMessage model "Error: Could not reach the AI assistant."
           | Pending => mkChatMessage user typed
           end)).
Proof.
  unfold handleSend, bind at 1. unfold read. cbn [state input].
  destruct (truthy (Some (trim typed))) eqn:Hin; cbn [negb].
  - unfold chatWithGemini, history. rewrite last_snoc. cbn [text input state].
    unfold bind, finally, try_catch, bind, start, await, update_with, update, ret. cbn.
    destruct (sendMessage_text P n typed) as [t | e |]; cbn;
      (split; [reflexivity |]); (split; [reflexivity |]); intros _; apply last_snoc.
  - unfold ret. cbn. split; [reflexivity |]. split; [reflexivity |]. intros H.
    discriminate H.
Qed.

(** X22.  The assistant is asked without the conversation: what
    [chatWithGemini] does depends only on the text of the last message, and
    for the same input [handleSend] sends the same request, settles the
    same way and appends the same reply whatever the transcript holds. *)
Theorem chat_ignores_history (P : Provider) :
  (∀ (r : Run State) (h1 h2 : list ChatMessage) (role1 role2 : Role) (t : string),
     chatWithGemini (U := Update) P (h1 ++ [mkChatMessage role1 t]) r
     = chatWithGemini (U := Update) P (h2 ++ [mkChatMessage role2 t]) r) ∧
  (∀ (ms1 ms2 : list ChatMessage) (typed : string) (typing : bool) (n d : nat),
     let run := λ ms, handleSend P (mkRun (mkState ms typed typing) n d) in
     requests (snd (fst (run ms1))) = requests (snd (fst (run ms2))) ∧
     snd (run ms1) = snd (run ms2) ∧
     (truthy (Some (trim typed)) = true →
      last (messages (state (fst (fst (run ms1)))))
      = last (messages (state (fst (fst (run ms2))))))).
Proof.
  split.
  - intros r h1 h2 role1 role2 t. unfold chatWithGemini. now rewrite !last_snoc.
  - intros ms1 ms2 typed typing n d. cbv zeta.
    pose proof (handleSend_run P ms1 typed typing n d) as H1.
    pose proof (handleSend_run P ms2 typed typing n d) as H2.
    destruct (handleSend P (mkRun (mkState ms1 typed typing) n d)) as [[r1 t1] o1].
    destruct (handleSend P (mkRun (mkState ms2 typed typing) n d)) as [[r2 t2] o2].
    destruct H1 as (Hq1 & Ho1 & Hl1), H2 as (Hq2 & Ho2 & Hl2). cbn [fst snd].
    split; [congruence |]. split; [congruence |].
    intros Hin. now rewrite (Hl1 Hin), (Hl2 Hin).
Qed.

End ChatFurther.
